(** * synthpops: the age-mixing contact sampling core

    A shallow embedding of [synthpops/synthpops.py] and of the parts of
    numpy the module calls, followed by the properties of the sampling
    engine.

    Numbers.  The module is modelled twice.  The sampling engine as a
    whole is stated over exact rationals ([Q]), with [Qeq] ([==]) as the
    equality of computed numbers: in this model nothing rounds, overflows
    or underflows, and the only non-finite values, kept apart in
    [float64], come from a division by a zero total.  What it proves of a
    distribution or of a probability is a fact of the algorithm, and of the
    program as far as float64 follows exact arithmetic.  The normaliser and
    the categorical sampler are modelled once more over IEEE binary64
    numbers, in the module [F64]: there a total can be an infinity, a
    quotient can round to a zero, and the statements about what these two
    functions reject and what they never return are made of that model.

    Dictionaries.  A Python [dict] is an insertion-ordered association
    list with pairwise distinct keys ([dict_wf]).

    Exceptions.  A computation that may raise returns a [result]; the
    module defines no exception class of its own, so every failure is one
    of the built-in exceptions of Python and numpy ([exn]).

    Randomness.  numpy's global random state is an infinite sequence of
    raw deviates, threaded through the [rand] monad; a statement that
    holds for every state holds for every behaviour of the random source.

    numpy.  The library functions are modelled after their documented
    behaviour in the [RandomState] interface of current releases:
    [multinomial] checks that every entry of [pvals] lies in [[0, 1]] and
    that all but the last sum to at most [1 + 1e-12], then lets the last
    entry take whatever mass the earlier ones leave; [choice] rejects an
    empty array; [binomial] rejects a probability outside [[0, 1]];
    [normal] rejects a negative scale; [M += A] broadcasts [A] to the shape
    of [M]; a division by zero yields a NaN or an infinity. *)

From Stdlib Require Import QArith Qround Lqa Floats Uint63.
From stdpp Require Import base decidable option list strings gmap.

Local Open Scope Q_scope.

(** ** Exceptions and results *)

Inductive exn : Type :=
| KeyError
| IndexError
| ValueError
| AttributeError.

Inductive result (A : Type) : Type :=
| Ok (a : A)
| Raise (e : exn).
Arguments Ok {A} a.
Arguments Raise {A} e.

Definition bind_result {A B} (m : result A) (k : A -> result B) : result B :=
  match m with
  | Ok a => k a
  | Raise e => Raise e
  end.

Notation "'let?' x ':=' m 'in' k" := (bind_result m (fun x => k))
  (at level 10, x pattern, m at level 100, k at level 200).

Definition is_ok {A} (r : result A) : Prop := exists a, r = Ok a.
Definition fails {A} (r : result A) : Prop := exists e, r = Raise e.

(** A [for] loop whose body may raise: the first exception ends the loop. *)
Fixpoint for_each {A S} (body : S -> A -> result S) (l : list A) (s : S)
  : result S :=
  match l with
  | [] => Ok s
  | x :: l' => let? s' := body s x in for_each body l' s'
  end.

(** ** Python dictionaries *)

Definition dict (K V : Type) : Type := list (K * V).

Section Dict.
Context {K V : Type} `{EqDecision K}.

Definition dict_keys (d : dict K V) : list K := map fst d.
Definition dict_values (d : dict K V) : list V := map snd d.

(** [NoDup] of the keys: what makes an association list a [dict]. *)
Definition dict_wf (d : dict K V) : Prop := NoDup (dict_keys d).

Fixpoint dict_lookup (d : dict K V) (k : K) : option V :=
  match d with
  | [] => None
  | (k', v) :: d' => if decide (k = k') then Some v else dict_lookup d' k
  end.

(** [d[k]] *)
Definition dict_get (d : dict K V) (k : K) : result V :=
  match dict_lookup d k with
  | Some v => Ok v
  | None => Raise KeyError
  end.

(** [d[k] = v]: an existing key keeps its place, a new key goes last. *)
Fixpoint dict_set (d : dict K V) (k : K) (v : V) : dict K V :=
  match d with
  | [] => [(k, v)]
  | (k', v') :: d' =>
      if decide (k = k') then (k', v) :: d' else (k', v') :: dict_set d' k v
  end.
End Dict.

(** ** Numbers *)

(** [np.sum] of a sequence of weights in exact arithmetic, where the
    order of the additions does not matter. *)
Definition np_sum (l : list Q) : Q := foldl Qplus 0 l.

(** ** [norm_dic] *)

Section NormDic.
Context {K : Type} `{EqDecision K}.

(** [for i in dic] together with [dic[i]] enumerates the items of [dic]. *)
Definition norm_dic (dic : dict K Q) : dict K Q :=
  let total := np_sum (dict_values dic) in
  if Qeq_bool total 0 then dic
  else
    foldl (fun new_dic '(i, w) => dict_set new_dic i (w / total)) [] dic.
End NormDic.

(** ** numpy arrays *)

(** The values a division can produce in exact arithmetic: a finite
    quotient, or one of the non-finite results of dividing by zero (numpy
    warns and carries on, it does not raise). *)
Inductive float64 : Type :=
| Finite (q : Q)
| PosInf
| NegInf
| NaN.

(** [x / y] in numpy, in exact arithmetic *)
Definition np_divide (x y : Q) : float64 :=
  if Qeq_bool y 0 then
    match x ?= 0 with
    | Eq => NaN
    | Lt => NegInf
    | Gt => PosInf
    end
  else Finite (x / y).

(** [a[i]] on a one-dimensional sequence *)
Definition getitem {A} (a : list A) (i : nat) : result A :=
  match a !! i with
  | Some x => Ok x
  | None => Raise IndexError
  end.

(** [np.where(n)[0]]: the positions of the nonzero entries, ascending. *)
Fixpoint np_where_from (i : nat) (n : list nat) : list nat :=
  match n with
  | [] => []
  | x :: n' =>
      if decide (x = 0%nat) then np_where_from (S i) n'
      else i :: np_where_from (S i) n'
  end.
Definition np_where (n : list nat) : list nat := np_where_from 0 n.

(** A two-dimensional array: its shape and its entries.  Entries outside
    the shape are never read. *)
Record ndarray : Type := mk_ndarray {
  nrows : nat;
  ncols : nat;
  entry : nat -> nat -> Q
}.

Definition shape (m : ndarray) : nat * nat := (nrows m, ncols m).

(** [np.array(rows)] for a rectangular list of rows *)
Definition np_array (rows : list (list Q)) : ndarray :=
  {| nrows := length rows;
     ncols := match rows with [] => 0 | r :: _ => length r end;
     entry := fun i j => nth j (nth i rows []) 0 |}.

(** [m[i, :]] *)
Definition row (m : ndarray) (i : nat) : list Q :=
  map (entry m i) (seq 0 (ncols m)).

Definition to_rows (m : ndarray) : list (list Q) :=
  map (row m) (seq 0 (nrows m)).

(** [m[b, :]] with numpy's bounds check *)
Definition get_row (m : ndarray) (b : nat) : result (list Q) :=
  if decide (b < nrows m)%nat then Ok (row m b) else Raise IndexError.

(** [np.zeros((r, c))] *)
Definition np_zeros (r c : nat) : ndarray :=
  {| nrows := r; ncols := c; entry := fun _ _ => 0 |}.

(** [m * w] for a scalar [w] *)
Definition scale (m : ndarray) (w : Q) : ndarray :=
  {| nrows := nrows m; ncols := ncols m;
     entry := fun i j => entry m i j * w |}.

(** A dimension of the operand fits the target when it is equal to it or
    is 1 (numpy's broadcasting rule). *)
Definition broadcastable (n target : nat) : bool :=
  bool_decide (n = target) || bool_decide (n = 1%nat).

(** [M += A]: [A] is broadcast to the shape of [M]; numpy raises
    [ValueError] when the shapes cannot be broadcast together. *)
Definition iadd (M A : ndarray) : result ndarray :=
  if broadcastable (nrows A) (nrows M) && broadcastable (ncols A) (ncols M)
  then
    Ok {| nrows := nrows M; ncols := ncols M;
          entry := fun i j =>
            entry M i j
            + entry A (if decide (nrows A = 1%nat) then 0%nat else i)
                      (if decide (ncols A = 1%nat) then 0%nat else j) |}
  else Raise ValueError.

(** Equality of arrays: same shape, equal entries within it. *)
Definition array_eq (A B : ndarray) : Prop :=
  shape A = shape B /\
  forall i j, (i < nrows A)%nat -> (j < ncols A)%nat -> entry A i j == entry B i j.

(** ** [combine_matrices] *)

(** The [for] loop of [combine_matrices], from the accumulator [M]. *)
Definition combine_from (matrix_dic : dict string ndarray)
    (weights_dic : dict string Q) (M : ndarray) : result ndarray :=
  for_each
    (fun M '(setting_code, w) =>
       let? A := dict_get matrix_dic setting_code in
       iadd M (scale A w))
    weights_dic M.

Definition combine_matrices (matrix_dic : dict string ndarray)
    (weights_dic : dict string Q) (num_agebrackets : nat) : result ndarray :=
  let M := np_zeros num_agebrackets num_agebrackets in
  combine_from matrix_dic weights_dic M.

(** ** Age brackets *)

(** Bracket index to the ascending ages of the bracket ([np.arange]). *)
Definition age_brackets_t : Type := dict nat (list Z).

(** [np.arange(age_min, age_max + 1)] *)
Definition np_arange (age_min age_max1 : Z) : list Z :=
  map (fun i => (age_min + Z.of_nat i)%Z) (seq 0 (Z.to_nat (age_max1 - age_min))).

Definition get_age_by_brackets_dic (age_brackets : age_brackets_t)
  : dict Z nat :=
  foldl
    (fun age_by_brackets_dic '(b, ages) =>
       foldl (fun d a => dict_set d a b) age_by_brackets_dic ages)
    [] age_brackets.

(** ** The random source *)

(** numpy's global random state: the raw deviates it will hand out, in
    order.  Every draw consumes the first one. *)
Definition RandomState : Type := nat -> Q.

(** Computations that draw from the random state and may raise.  The
    state advanced so far survives an exception, as it does in numpy. *)
Definition rand (A : Type) : Type := RandomState -> result A * RandomState.

Definition ret {A} (a : A) : rand A := fun s => (Ok a, s).
Definition raise {A} (e : exn) : rand A := fun s => (Raise e, s).
Definition bind {A B} (m : rand A) (k : A -> rand B) : rand B :=
  fun s =>
    match m s with
    | (Ok a, s') => k a s'
    | (Raise e, s') => (Raise e, s')
    end.
Definition lift {A} (r : result A) : rand A := fun s => (r, s).

Notation "'let*' x ':=' m 'in' k" := (bind m (fun x => k))
  (at level 10, x pattern, m at level 100, k at level 200).

(** [try: body except: handler] with a bare [except]. *)
Definition try_except {A} (body handler : rand A) : rand A :=
  fun s =>
    match body s with
    | (Ok a, s') => (Ok a, s')
    | (Raise _, s') => handler s'
    end.

(** The state once its first deviate is used up. *)
Definition advance (s : RandomState) : RandomState := fun n => s (S n).

Definition next_raw : rand Q := fun s => (Ok (s 0%nat), advance s).

(** The fractional part of a raw deviate. *)
Definition uniform_of (raw : Q) : Q := raw - inject_Z (Qfloor raw).

(** A uniform double in [[0, 1)]. *)
Definition random_sample : rand Q :=
  let* raw := next_raw in
  ret (uniform_of raw).

(** A uniform integer in [[0, n)]. *)
Definition randint (n : nat) : rand nat :=
  let* u := random_sample in
  ret (Z.to_nat (Qfloor (u * inject_Z (Z.of_nat n)))).

Definition Qlt_bool (x y : Q) : bool := negb (Qle_bool y x).

(** One Bernoulli trial with success probability [p], without argument
    checks: success when the uniform draw falls below [p]. *)
Definition bernoulli (p : Q) : rand nat :=
  let* u := random_sample in
  ret (if Qlt_bool u p then 1%nat else 0%nat).

(** [np.random.binomial(1, p)]: [ValueError] unless [0 <= p <= 1]. *)
Definition np_random_binomial1 (p : Q) : rand nat :=
  if Qle_bool 0 p && Qle_bool p 1 then bernoulli p else raise ValueError.

(** numpy's check that every entry of [pvals] lies in [[0, 1]] (a NaN or an
    infinity fails it); the finite values when it passes. *)
Fixpoint check_pvals (pvals : list float64) : option (list Q) :=
  match pvals with
  | [] => Some []
  | Finite q :: pvals' =>
      if Qle_bool 0 q && Qle_bool q 1
      then option_map (cons q) (check_pvals pvals')
      else None
  | _ :: _ => None
  end.

(** The loop of [multinomial] for one trial: entry [j] before the last
    succeeds with probability [pix[j] / Sum], where [Sum] is the mass not
    yet used up; the last entry takes the trial when no earlier one did. *)
Fixpoint multinomial_trial (pix : list Q) (Sum : Q) : rand (list nat) :=
  match pix with
  | [] => ret []
  | [_] => ret [1%nat]
  | p :: pix' =>
      let* hit := bernoulli (p / Sum) in
      if decide (hit = 0%nat) then
        let* counts := multinomial_trial pix' (Sum - p) in
        ret (0%nat :: counts)
      else ret (hit :: replicate (length pix') 0%nat)
  end.

(** [np.random.multinomial(1, pvals, size=1)[0]] *)
Definition np_random_multinomial1 (pvals : list float64) : rand (list nat) :=
  match check_pvals pvals with
  | None => raise ValueError
  | Some pix =>
      if Qlt_bool (1 + 1 / 1000000000000) (np_sum (removelast pix))
      then raise ValueError
      else multinomial_trial pix 1
  end.

(** [np.random.choice(a)] for a one-dimensional array: [ValueError] when
    [a] is empty. *)
Definition np_random_choice {A} (a : list A) : rand A :=
  match a with
  | [] => raise ValueError
  | _ :: _ =>
      let* i := randint (length a) in
      lift (getitem a i)
  end.

(** [np.choice]: the numpy module has no attribute [choice] (the sampler
    is [np.random.choice]), so evaluating the callee raises
    [AttributeError] before any argument is used. *)
Definition np_choice {A} (a : list A) : rand A := raise AttributeError.

(** [pl.normal(loc, scale)]: [ValueError] for a negative [scale]. *)
Definition pl_normal (loc scale : Q) : rand Q :=
  if Qlt_bool scale 0 then raise ValueError
  else
    let* z := next_raw in
    ret (loc + scale * z).

(** [pl.randint(n)] *)
Definition pl_randint (n : nat) : rand nat := randint n.

(** [sorted(l)]: a stable insertion sort by [le]. *)
Section Sorted.
Context {A : Type} (le : A -> A -> bool).

Fixpoint insert_sorted (x : A) (l : list A) : list A :=
  match l with
  | [] => [x]
  | y :: l' => if le x y then x :: l else y :: insert_sorted x l'
  end.

Definition sorted (l : list A) : list A := foldr insert_sorted [] l.
End Sorted.

(** [pl.median(l)]: the middle of the sorted values, or the mean of the
    two middle ones. *)
Definition pl_median (l : list Q) : Q :=
  let s := sorted Qle_bool l in
  let n := length s in
  if Nat.even n
  then (nth (n / 2 - 1) s 0 + nth (n / 2) s 0) / 2
  else nth (n / 2) s 0.

(** A list comprehension whose element expression may raise. *)
Fixpoint map_result {A B} (f : A -> result B) (l : list A) : result (list B) :=
  match l with
  | [] => Ok []
  | x :: l' =>
      let? y := f x in
      let? ys := map_result f l' in
      Ok (y :: ys)
  end.

(** A [for] loop in the [rand] monad. *)
Fixpoint for_each_rand {A S} (body : S -> A -> rand S) (l : list A) (s : S)
  : rand S :=
  match l with
  | [] => ret s
  | x :: l' => let* s' := body s x in for_each_rand body l' s'
  end.

(** ** The categorical sampler *)

(** What [sample_single] may be handed: a [dict], a numpy array, or an
    object of another type (a plain list, a tuple). *)
Inductive distribution (K : Type) : Type :=
| PyDict (d : dict K Q)
| PyArray (a : list Q)
| PyList (l : list Q)
| PyTuple (l : list Q).
Arguments PyDict {K} d.
Arguments PyArray {K} a.
Arguments PyList {K} l.
Arguments PyTuple {K} l.

(** What it returns: a key of the [dict], an index of the array, or
    [None] when the function body falls off its end. *)
Inductive sampled (K : Type) : Type :=
| Key (k : K)
| Index (i : nat)
| PyNone.
Arguments Key {K} k.
Arguments Index {K} i.
Arguments PyNone {K}.

Section Sampler.
Context {K : Type} `{EqDecision K} (key_le : K -> K -> bool).

Definition sample_single (distr : distribution K) : rand (sampled K) :=
  match distr with
  | PyDict distr =>
      let distr := norm_dic distr in
      let sorted_keys := sorted key_le (dict_keys distr) in
      let* sorted_distr := lift (map_result (dict_get distr) sorted_keys) in
      let* n := np_random_multinomial1 (map Finite sorted_distr) in
      let* index := lift (getitem (np_where n) 0) in
      let* k := lift (getitem sorted_keys index) in
      ret (Key k)
  | PyArray distr =>
      let distr := map (fun x => np_divide x (np_sum distr)) distr in
      let* n := np_random_multinomial1 distr in
      let* index := lift (getitem (np_where n) 0) in
      ret (Index index)
  | PyList _ | PyTuple _ => ret PyNone
  end.

Definition sample_bracket (distr : dict K Q) (brackets : age_brackets_t)
  : rand nat :=
  let sorted_keys := sorted key_le (dict_keys distr) in
  let* sorted_distr := lift (map_result (dict_get distr) sorted_keys) in
  let* n := np_random_multinomial1 (map Finite sorted_distr) in
  let* index := lift (getitem (np_where n) 0) in
  ret index.
End Sampler.

(** ** The contact age sampler *)

(** [age_brackets[b_contact]] for whatever [sample_single] returned;
    [None] is not a key. *)
Definition bracket_of_sample (age_brackets : age_brackets_t)
    (b_contact : sampled nat) : result (list Z) :=
  match b_contact with
  | Key b | Index b => dict_get age_brackets b
  | PyNone => Raise KeyError
  end.

Definition sample_contact_age (age : Z) (age_brackets : age_brackets_t)
    (age_by_brackets_dic : dict Z nat) (age_mixing_matrix : ndarray) : rand Z :=
  let* b := lift (dict_get age_by_brackets_dic age) in
  let* distr := lift (get_row age_mixing_matrix b) in
  let* b_contact := sample_single Nat.leb (PyArray distr) in
  let* ages := lift (bracket_of_sample age_brackets b_contact) in
  np_random_choice ages.

(** [for i in range(n_contacts): contact_ages.append(...)] *)
Fixpoint append_contact_ages (n_contacts : nat) (draw : rand Z)
    (contact_ages : list Z) : rand (list Z) :=
  match n_contacts with
  | O => ret contact_ages
  | S n =>
      let* a := draw in
      append_contact_ages n draw (contact_ages ++ [a])
  end.

Definition sample_n_contact_ages (n_contacts : nat) (age : Z)
    (age_brackets : age_brackets_t) (age_by_brackets_dic : dict Z nat)
    (age_mixing_matrix_dic : dict string ndarray) (weights_dic : dict string Q)
    (num_agebrackets : nat) : rand (list Z) :=
  let* age_mixing_matrix :=
    lift (combine_matrices age_mixing_matrix_dic weights_dic num_agebrackets) in
  append_contact_ages n_contacts
    (sample_contact_age age age_brackets age_by_brackets_dic age_mixing_matrix)
    [].

(** The default of the keyword argument [num_agebrackets]. *)
Definition default_num_agebrackets : nat := 18.

(** ** The contact identity resolver *)

Definition get_n_contact_ids_by_age (contact_ids_by_age_dic : dict Z (list nat))
    (contact_ages : list Z) (age_brackets : age_brackets_t)
    (age_by_brackets_dic : dict Z nat) : rand (gset nat) :=
  for_each_rand
    (fun contact_ids contact_age =>
       let* pool := lift (dict_get contact_ids_by_age_dic contact_age) in
       let* contact_id :=
         if decide (0 < length pool)%nat then np_choice pool
         else
           let* b_contact := lift (dict_get age_by_brackets_dic contact_age) in
           let* ages := lift (dict_get age_brackets b_contact) in
           let* potential_contacts :=
             lift (for_each
                     (fun potential_contacts a =>
                        let? ids := dict_get contact_ids_by_age_dic a in
                        Ok (potential_contacts ++ ids))
                     ages [])
           in
           np_choice potential_contacts
       in
       ret ({[contact_id]} ∪ contact_ids))
    contact_ages ∅.

(** ** The age-sex generator *)

Section AgeSex.
Context {K : Type} `{EqDecision K} (key_le : K -> K -> bool).

(** The body of the [try]. *)
Definition get_age_sex_primary
    (gender_fraction_by_age : dict string (dict nat Q))
    (age_bracket_distr : dict K Q) (age_brackets : age_brackets_t)
  : rand (Q * nat) :=
  let* b := sample_bracket key_le age_bracket_distr age_brackets in
  let* ages := lift (dict_get age_brackets b) in
  let* age := np_random_choice ages in
  let* male := lift (dict_get gender_fraction_by_age "male"%string) in
  let* p := lift (dict_get male b) in
  let* sex := np_random_binomial1 p in
  ret (inject_Z age, sex).

(** The body of the [except]. *)
Definition get_age_sex_fallback (min_age max_age age_mean age_std : Q)
  : rand (Q * nat) :=
  let* sex := pl_randint 2 in
  let* age := pl_normal age_mean age_std in
  let age := pl_median [min_age; age; max_age] in
  ret (age, sex).

Definition get_age_sex (gender_fraction_by_age : dict string (dict nat Q))
    (age_bracket_distr : dict K Q) (age_by_brackets : dict Z nat)
    (age_brackets : age_brackets_t) (min_age max_age age_mean age_std : Q)
  : rand (Q * nat) :=
  try_except
    (get_age_sex_primary gender_fraction_by_age age_bracket_distr age_brackets)
    (get_age_sex_fallback min_age max_age age_mean age_std).
End AgeSex.

(** ** Bracket definitions read from a file *)

(** [enumerate(l)] *)
Definition enumerate {A} (l : list A) : list (nat * A) :=
  zip (seq 0 (length l)) l.

(** [get_age_brackets_from_df], from the rows of the data frame that
    [pd.read_csv(ab_filepath, header=None)] returns: row [index] holds the
    youngest and the oldest age of bracket [index] in its first two cells.
    The cells are integers.  pandas gives every row the width of the table
    and refuses a file without data; a line with a missing cell, which
    pandas fills with a NaN, is outside this model. *)
Definition get_age_brackets_from_df (ab_df : list (list Z)) : result age_brackets_t :=
  for_each
    (fun dic '(index, row) =>
       let? age_min := getitem row 0 in
       let? age_max := getitem row 1 in
       Ok (dict_set dic index (np_arange age_min (age_max + 1))))
    (enumerate ab_df) [].

(** ** The population pool *)

(** [d.setdefault(k, v)], for its effect on [d]. *)
Definition dict_setdefault {K V} `{EqDecision K} (d : dict K V) (k : K) (v : V)
  : dict K V :=
  match dict_lookup d k with
  | Some _ => d
  | None => dict_set d k v
  end.

(** [get_ids_by_age_dic]: [append] changes the list the dictionary holds
    under the age. *)
Definition get_ids_by_age_dic (age_by_id_dic : dict nat Z)
  : result (dict Z (list nat)) :=
  for_each
    (fun ids_by_age_dic '(i, age) =>
       let ids_by_age_dic := dict_setdefault ids_by_age_dic age [] in
       let? ids := dict_get ids_by_age_dic age in
       Ok (dict_set ids_by_age_dic age (ids ++ [i])))
    age_by_id_dic [].

(** ** Mortality rates *)

Definition get_mortality_rates_by_age (mortality_rate_by_age_bracket : dict nat Q)
    (mortality_age_brackets : age_brackets_t) : result (dict Z Q) :=
  for_each
    (fun mortality_rates '(b, rate) =>
       let? ages := dict_get mortality_age_brackets b in
       Ok (foldl (fun d a => dict_set d a rate) mortality_rates ages))
    mortality_rate_by_age_bracket [].

Definition calc_death (person_age : Z) (mortality_rates : dict Z Q) : result Q :=
  dict_get mortality_rates person_age.

(** * The float64 model of the normaliser and of the categorical sampler

    [norm_dic] and [sample_single] once more, over IEEE binary64 numbers
    (Rocq's primitive floats, the format of Python's [float] and numpy's
    [float64]): every sum, quotient and comparison rounds, overflows to an
    infinity and underflows to a zero as it does in the program.  Weights
    are [float64] values.  The random source is the one of the exact
    model. *)
Module F64.

(** [res += a[i]] for every entry of [a] *)
Definition sum_loop (res : float) (a : list float) : float :=
  foldl PrimFloat.add res a.

(** [r[k] += a[i + k]] for the eight partial sums [r] *)
Definition add_block (r block : list float) : list float :=
  zip_with PrimFloat.add r block.

(** The unrolled loop over [blocks] blocks of eight entries. *)
Fixpoint add_blocks (blocks : nat) (r a : list float) : list float :=
  match blocks with
  | O => r
  | S blocks' => add_blocks blocks' (add_block r (take 8 a)) (drop 8 a)
  end.

(** [((r[0] + r[1]) + (r[2] + r[3])) + ((r[4] + r[5]) + (r[6] + r[7]))] *)
Definition sum8 (r : list float) : float :=
  let x i := nth i r 0%float in
  (((x 0%nat + x 1%nat) + (x 2%nat + x 3%nat))
   + ((x 4%nat + x 5%nat) + (x 6%nat + x 7%nat)))%float.

Definition PW_BLOCKSIZE : nat := 128.

(** numpy's pairwise summation of a contiguous [float64] array: a plain
    loop below eight entries, eight partial sums up to [PW_BLOCKSIZE]
    entries, two halves above.  [fuel] bounds the depth of the halving;
    the length of the array is enough. *)
Fixpoint pairwise_sum (fuel : nat) (a : list float) : float :=
  let n := length a in
  if decide (n < 8)%nat then sum_loop (-0)%float a
  else if decide (n <= PW_BLOCKSIZE)%nat then
    let res := sum8 (add_blocks (n / 8 - 1) (take 8 a) (drop 8 a)) in
    sum_loop res (drop (8 * (n / 8)) a)
  else
    match fuel with
    | O => nan
    | S fuel' =>
        let n2 := (n / 2 - (n / 2) mod 8)%nat in
        (pairwise_sum fuel' (take n2 a) + pairwise_sum fuel' (drop n2 a))%float
    end.

(** [np.sum(a, dtype=float)] of a [float64] array: the reduction starts
    from the identity of the addition and adds the pairwise sum of the
    array.  The sign of a zero total is not observed by the module. *)
Definition np_sum (a : list float) : float :=
  (0 + pairwise_sum (length a) a)%float.

Section NormDic.
Context {K : Type} `{EqDecision K}.

Definition norm_dic (dic : dict K float) : dict K float :=
  let total := np_sum (dict_values dic) in
  if (total =? 0)%float then dic
  else
    foldl (fun new_dic '(i, w) => dict_set new_dic i (w / total)%float) [] dic.
End NormDic.

(** A uniform double in [[0, 1)]: 53 random bits over [2^53]. *)
Definition random_sample : rand float :=
  let* raw := next_raw in
  let bits := Qfloor (uniform_of raw * 9007199254740992) in
  ret (PrimFloat.of_uint63 (Uint63.of_Z bits) / 0x1p+53)%float.

(** One Bernoulli trial with success probability [p]: success when the
    uniform draw falls below [p]. *)
Definition bernoulli (p : float) : rand nat :=
  let* u := random_sample in
  ret (if (u <? p)%float then 1%nat else 0%nat).

(** numpy's check of [pvals]: every entry is [>= 0] and [<= 1]; a NaN
    fails both comparisons. *)
Definition pval_ok (p : float) : bool := ((0 <=? p) && (p <=? 1))%float.

(** One step of the compensated summation: the running sum and its
    correction. *)
Definition kahan_step (acc : float * float) (x : float) : float * float :=
  let '(sum, c) := acc in
  let y := (x - c)%float in
  let t := (sum + y)%float in
  (t, ((t - sum) - y)%float).

(** [kahan_sum(darr, n)]; it starts from [darr[0]] whatever [n] is. *)
Definition kahan_sum (darr : list float) (n : nat) : float :=
  match darr with
  | [] => 0%float
  | d0 :: darr' => fst (foldl kahan_step (d0, 0%float) (take (n - 1) darr'))
  end.

(** The loop of [multinomial] for one trial; [remaining_p] is the mass
    not yet used up. *)
Fixpoint multinomial_trial (pix : list float) (remaining_p : float)
  : rand (list nat) :=
  match pix with
  | [] => ret []
  | [_] => ret [1%nat]
  | p :: pix' =>
      let* hit := bernoulli (p / remaining_p)%float in
      if decide (hit = 0%nat) then
        let* counts := multinomial_trial pix' (remaining_p - p)%float in
        ret (0%nat :: counts)
      else ret (hit :: replicate (length pix') 0%nat)
  end.

(** [np.random.multinomial(1, pvals, size=1)[0]]; the sum of all entries
    but the last is checked only when [pvals] is not empty. *)
Definition np_random_multinomial1 (pvals : list float) : rand (list nat) :=
  if forallb pval_ok pvals then
    if bool_decide (pvals <> [])
       && (0x1.0000000001198p+0 <? kahan_sum pvals (length pvals - 1))%float
    then raise ValueError
    else multinomial_trial pvals 1%float
  else raise ValueError.

Inductive distribution (K : Type) : Type :=
| PyDict (d : dict K float)
| PyArray (a : list float)
| PyList (l : list float)
| PyTuple (l : list float).
Arguments PyDict {K} d.
Arguments PyArray {K} a.
Arguments PyList {K} l.
Arguments PyTuple {K} l.

Section Sampler.
Context {K : Type} `{EqDecision K} (key_le : K -> K -> bool).

Definition sample_single (distr : distribution K) : rand (sampled K) :=
  match distr with
  | PyDict distr =>
      let distr := norm_dic distr in
      let sorted_keys := sorted key_le (dict_keys distr) in
      let* sorted_distr := lift (map_result (dict_get distr) sorted_keys) in
      let* n := np_random_multinomial1 sorted_distr in
      let* index := lift (getitem (np_where n) 0) in
      let* k := lift (getitem sorted_keys index) in
      ret (Key k)
  | PyArray distr =>
      let distr := map (fun x => (x / np_sum distr)%float) distr in
      let* n := np_random_multinomial1 distr in
      let* index := lift (getitem (np_where n) 0) in
      ret (Index index)
  | PyList _ | PyTuple _ => ret PyNone
  end.
End Sampler.
End F64.

(** ** Conditions on the inputs *)

(** The brackets partition the ages from [min_age] to [max_age]: every
    age of the range lies in a bracket and no bracket reaches outside it
    (no gaps), and no age lies in two brackets (no overlaps). *)
Definition partitions (age_brackets : age_brackets_t) (min_age max_age : Z)
  : Prop :=
  dict_wf age_brackets
  /\ (forall a, (min_age <= a <= max_age)%Z <->
                exists b ages, (b, ages) ∈ age_brackets /\ a ∈ ages)
  /\ (forall b1 b2 ages1 ages2 a,
        (b1, ages1) ∈ age_brackets -> (b2, ages2) ∈ age_brackets ->
        a ∈ ages1 -> a ∈ ages2 -> b1 = b2).

(** Every matrix of the dictionary is [K]x[K]. *)
Definition square_matrices (matrix_dic : dict string ndarray) (K : nat) : Prop :=
  forall code A, (code, A) ∈ matrix_dic -> shape A = (K, K).

(** The weight set is over settings of the matrix dictionary. *)
Definition weights_over (weights_dic : dict string Q)
    (matrix_dic : dict string ndarray) : Prop :=
  forall code, code ∈ dict_keys weights_dic -> code ∈ dict_keys matrix_dic.

(** The matrices selected by the weight set: those of its settings. *)
Definition selected (matrix_dic : dict string ndarray)
    (weights_dic : dict string Q) (A : ndarray) : Prop :=
  exists code, code ∈ dict_keys weights_dic /\ dict_lookup matrix_dic code = Some A.

(** [sum over settings of weight[setting] * matrix[setting][i, j]] *)
Definition weighted_sum (matrix_dic : dict string ndarray)
    (weights_dic : dict string Q) (i j : nat) : Q :=
  foldr
    (fun '(code, w) acc =>
       match dict_lookup matrix_dic code with
       | Some A => entry A i j * w + acc
       | None => acc
       end)
    0 weights_dic.

(** [A] can be broadcast to [K]x[K]: each of its dimensions is [K] or 1. *)
Definition broadcasts_to (A : ndarray) (K : nat) : Prop :=
  (nrows A = K \/ nrows A = 1%nat) /\ (ncols A = K \/ ncols A = 1%nat).

(** What numpy's [multinomial] rejects in [pvals]: a NaN, an infinity, or
    a value outside [[0, 1]]. *)
Definition bad_pval (p : float64) : Prop :=
  match p with
  | Finite q => q < 0 \/ 1 < q
  | _ => True
  end.

(** The weights of a distribution, in the order the object holds them. *)
Definition weights_of {K} (distr : distribution K) : list Q :=
  match distr with
  | PyDict d => dict_values d
  | PyArray a => a
  | PyList l | PyTuple l => l
  end.

(** [type(distr) == dict] and [type(distr) == np.ndarray] *)
Definition is_dict {K} (distr : distribution K) : bool :=
  match distr with PyDict _ => true | _ => false end.
Definition is_ndarray {K} (distr : distribution K) : bool :=
  match distr with PyArray _ => true | _ => false end.

(** A distribution the sampler is meant for: a [dict] or an array. *)
Definition is_distribution {K} `{EqDecision K} (distr : distribution K) : Prop :=
  match distr with
  | PyDict d => dict_wf d
  | PyArray _ => True
  | PyList _ | PyTuple _ => False
  end.

(** Bracket definitions for [K] brackets: every index below [K] has a
    bracket, and none of them is empty. *)
Definition brackets_defined (age_brackets : age_brackets_t) (K : nat) : Prop :=
  forall b, (b < K)%nat ->
    exists ages, dict_lookup age_brackets b = Some ages /\ ages <> [].

(** An age that appears in some bracket of the bracket definitions. *)
Definition valid_age (age_brackets : age_brackets_t) (a : Z) : Prop :=
  exists b ages, dict_lookup age_brackets b = Some ages /\ a ∈ ages.

(** A matrix dictionary and a weight set fit for [K] brackets: the weight
    set is over settings of the dictionary, its weights are non-negative,
    and every selected matrix is [K]x[K] with non-negative entries. *)
Definition well_formed_mixing (matrix_dic : dict string ndarray)
    (weights_dic : dict string Q) (K : nat) : Prop :=
  weights_over weights_dic matrix_dic
  /\ Forall (fun w => 0 <= w) (dict_values weights_dic)
  /\ forall A, selected matrix_dic weights_dic A ->
       shape A = (K, K)
       /\ forall i j, (i < K)%nat -> (j < K)%nat -> 0 <= entry A i j.

(** The identifiers whose age is [a], in the order of the age dictionary. *)
Definition ids_of_age (age_by_id_dic : dict nat Z) (a : Z) : list nat :=
  omap (fun '(i, a') => if decide (a' = a) then Some i else None) age_by_id_dic.

(** Equal as numbers: the same non-finite value, or finite values that
    are equal rationals. *)
Definition float64_eq (x y : float64) : Prop :=
  match x, y with
  | Finite p, Finite q => p == q
  | PosInf, PosInf | NegInf, NegInf | NaN, NaN => True
  | _, _ => False
  end.

(** The weight set with every weight multiplied by [c]. *)
Definition scale_weights (c : Q) (weights_dic : dict string Q) : dict string Q :=
  map (fun '(setting_code, w) => (setting_code, c * w)) weights_dic.

(** Equal as dictionaries of numbers: the same keys in the same order,
    with equal rationals as values. *)
Definition dict_Qeq {K} (d d' : dict K Q) : Prop :=
  Forall2 (fun x y => x.1 = y.1 /\ x.2 == y.2) d d'.

(** The [dict] with every value multiplied by [c]. *)
Definition scale_dict {K} (c : Q) (d : dict K Q) : dict K Q :=
  map (fun '(k, w) => (k, c * w)) d.

(** Entry [(i, j)] of [A] once broadcast: a dimension of length 1 is
    repeated along its axis. *)
Definition broadcast_entry (A : ndarray) (i j : nat) : Q :=
  entry A (if decide (nrows A = 1%nat) then 0%nat else i)
          (if decide (ncols A = 1%nat) then 0%nat else j).

(** [sum over settings of weight[setting] * matrix[setting]] at [(i, j)],
    with every matrix broadcast. *)
Definition broadcast_sum (matrix_dic : dict string ndarray)
    (weights_dic : dict string Q) (i j : nat) : Q :=
  foldr
    (fun '(code, w) acc =>
       match dict_lookup matrix_dic code with
       | Some A => broadcast_entry A i j * w + acc
       | None => acc
       end)
    0 weights_dic.

(** ** Conditions on float64 inputs *)

(** A zero of either sign. *)
Definition float_zero (x : float) : Prop := (x =? 0)%float = true.

(** The vector [sample_single] hands to [multinomial]: the values of the
    normalised [dict] in sorted key order, or the array divided by its
    sum. *)
Definition normalised {K} `{EqDecision K} (key_le : K -> K -> bool)
    (distr : F64.distribution K) : list float :=
  match distr with
  | F64.PyDict d =>
      let d := F64.norm_dic d in
      omap (dict_lookup d) (sorted key_le (dict_keys d))
  | F64.PyArray a => map (fun x => (x / F64.np_sum a)%float) a
  | F64.PyList _ | F64.PyTuple _ => []
  end.

(** numpy's test on the sum of all entries of [pvals] but the last. *)
Definition sum_too_large (pvals : list float) : bool :=
  (0x1.0000000001198p+0 <? F64.kahan_sum pvals (length pvals - 1))%float.

(** A float64 distribution the sampler is meant for. *)
Definition distribution_f64 {K} `{EqDecision K} (distr : F64.distribution K)
  : Prop :=
  match distr with
  | F64.PyDict d => dict_wf d
  | F64.PyArray _ => True
  | F64.PyList _ | F64.PyTuple _ => False
  end.

(** A zero of either sign, or a NaN: the quotients of a zero. *)
Definition zero_or_nan (x : float) : Prop :=
  match Prim2SF x with
  | S754_zero _ | S754_nan => True
  | _ => False
  end.

(** Not below zero: a zero, a NaN, or a number with the sign bit clear. *)
Definition not_negative (x : float) : Prop :=
  match Prim2SF x with
  | S754_zero _ | S754_nan => True
  | S754_infinity sign | S754_finite sign _ _ => sign = false
  end.

(** ** Sample inputs *)

(** Raw counts of two categories. *)
Definition counts_1_3 : dict string Q := [("a"%string, 1); ("b"%string, 3)].

(** The two-bracket location: ages 0-17 and 18-99. *)
Definition two_brackets : age_brackets_t :=
  [(0%nat, np_arange 0 18); (1%nat, np_arange 18 100)].

(** Contact only across the two brackets. *)
Definition cross_matrix : ndarray := np_array [[0; 1]; [1; 0]].

Definition household_only : dict string ndarray := [("H"%string, cross_matrix)].
Definition weight_H_1 : dict string Q := [("H"%string, 1)].

(** Two settings with matrices of the same size, and weight sets that keep
    only the household matrix or nothing. *)
Definition mat_2x2 : ndarray := np_array [[1; 2]; [3; 4]].
Definition two_settings : dict string ndarray :=
  [("H"%string, cross_matrix); ("S"%string, mat_2x2)].
Definition schools_closed : dict string Q := [("H"%string, 1); ("S"%string, 0)].

(** Two settings with matrices of different sizes, both selected. *)
Definition mat_1x1 : ndarray := np_array [[5]].
Definition mat_3x3 : ndarray := np_array [[1; 0; 0]; [0; 1; 0]; [0; 0; 1]].
Definition mixed_sizes : dict string ndarray :=
  [("H"%string, mat_2x2); ("S"%string, mat_1x1)].
Definition unfit_sizes : dict string ndarray :=
  [("H"%string, mat_2x2); ("S"%string, mat_3x3)].
Definition weights_H_S : dict string Q := [("H"%string, 1); ("S"%string, 1)].

(** Distributions over two keys: all-zero weights, and only negative
    weights. *)
Definition all_zero_dict : distribution string :=
  PyDict [("a"%string, 0); ("b"%string, 0)].
Definition all_negative_dict : distribution string :=
  PyDict [("a"%string, -(1)); ("b"%string, -(3))].

(** A pool with nobody of age 30 and one person of age 31, both ages in
    the one bracket. *)
Definition pool_31_only : dict Z (list nat) := [(30%Z, []); (31%Z, [7%nat])].
Definition bracket_30_31 : age_brackets_t := [(0%nat, np_arange 30 32)].

(** No age-bracket distribution and no gender fractions at all. *)
Definition no_distr : dict nat Q := [].
Definition no_gender_fractions : dict string (dict nat Q) := [].

(** The rows of a bracket file for three brackets: 0-4, 5-17 and 18-99. *)
Definition three_rows : list (list Z) := [[0; 4]; [5; 17]; [18; 99]]%Z.

(** Three individuals: two of age 31 and one of age 45. *)
Definition three_people : dict nat Z := [(0%nat, 31%Z); (1%nat, 31%Z); (2%nat, 45%Z)].

(** Mortality rates for the two brackets of [two_brackets]. *)
Definition two_rates : dict nat Q := [(0%nat, 1 # 1000); (1%nat, 2 # 100)].

(** Every setting closed: both weights zero. *)
Definition all_closed : dict string Q := [("H"%string, 0); ("S"%string, 0)].

(** An age distribution over the two brackets given as shares, the same
    one given as raw counts, and the male fractions per bracket. *)
Definition bracket_shares : dict nat Q := [(0%nat, 1 # 4); (1%nat, 3 # 4)].
Definition bracket_counts : dict nat Q := [(0%nat, 120); (1%nat, 380)].
Definition male_fractions : dict string (dict nat Q) :=
  [("male"%string, [(0%nat, 51 # 100); (1%nat, 49 # 100)]);
   ("female"%string, [(0%nat, 49 # 100); (1%nat, 51 # 100)])].

(** float64 weights: two counts whose sum exceeds the float64 range
    ([2^1023] each), and a [dict] with a negative and a positive weight. *)
Definition huge_counts : dict string float :=
  [("a"%string, 0x1p+1023%float); ("b"%string, 0x1p+1023%float)].
Definition mixed_sign_f64 : F64.distribution string :=
  F64.PyDict [("a"%string, (-1)%float); ("b"%string, 2%float)].
(** * Properties *)

(** ** Dictionaries *)

Section DictFacts.
Context {K V : Type} `{EqDecision K}.
Implicit Types (d : dict K V) (k : K) (v : V).

Lemma dict_lookup_set_eq d k v : dict_lookup (dict_set d k v) k = Some v.
Proof.
  induction d as [|[k' v'] d IH]; simpl.
  - by rewrite decide_True.
  - destruct (decide (k = k')) as [->|Hne]; simpl.
    + by rewrite decide_True.
    + by rewrite decide_False.
Qed.

Lemma dict_lookup_set_ne d k k' v :
  k ≠ k' -> dict_lookup (dict_set d k v) k' = dict_lookup d k'.
Proof.
  intros Hne. induction d as [|[k0 v0] d IH]; simpl.
  - rewrite decide_False; [done|congruence].
  - destruct (decide (k = k0)) as [->|Hne0]; simpl.
    + by rewrite !decide_False by congruence.
    + destruct (decide (k' = k0)); [done|apply IH].
Qed.

Lemma dict_set_fresh d k v :
  k ∉ dict_keys d -> dict_set d k v = d ++ [(k, v)].
Proof.
  induction d as [|[k' v'] d IH]; simpl; [done|].
  intros Hk. apply not_elem_of_cons in Hk as [Hne Hk].
  rewrite decide_False by done. by rewrite IH.
Qed.

Lemma dict_lookup_Some_elem d k v : dict_lookup d k = Some v -> (k, v) ∈ d.
Proof.
  induction d as [|[k' v'] d IH]; simpl; [done|].
  destruct (decide (k = k')) as [->|Hne].
  - intros [= ->]. apply list_elem_of_here.
  - intros Hl. apply list_elem_of_further, IH, Hl.
Qed.

Lemma dict_lookup_elem_wf d k v :
  dict_wf d -> (k, v) ∈ d -> dict_lookup d k = Some v.
Proof.
  unfold dict_wf, dict_keys.
  induction d as [|[k' v'] d IH]; simpl; intros Hwf Hin.
  - by apply elem_of_nil in Hin.
  - apply NoDup_cons in Hwf as [Hk' Hwf].
    apply elem_of_cons in Hin as [[= -> ->]|Hin].
    + by rewrite decide_True.
    + rewrite decide_False; [by apply IH|].
      intros ->. apply Hk'. apply list_elem_of_fmap. by exists (k', v).
Qed.

Lemma dict_lookup_is_Some d k : is_Some (dict_lookup d k) <-> k ∈ dict_keys d.
Proof.
  unfold dict_keys. induction d as [|[k' v'] d IH]; simpl.
  - split; [by intros [? ?]|by intros ?%elem_of_nil].
  - destruct (decide (k = k')) as [->|Hne].
    + split; [intros _; apply list_elem_of_here|by eexists].
    + rewrite IH. split; [apply list_elem_of_further|].
      intros [?|?]%elem_of_cons; [done|done].
Qed.
End DictFacts.

(** ** Sums of weights *)

Lemma foldl_Qplus_acc (l : list Q) (a : Q) : foldl Qplus a l == a + np_sum l.
Proof.
  unfold np_sum. revert a. induction l as [|x l IH]; intros a; simpl.
  - lra.
  - rewrite (IH (a + x)), (IH (0 + x)). lra.
Qed.

Lemma np_sum_nil : np_sum [] == 0.
Proof. reflexivity. Qed.

Lemma np_sum_cons (x : Q) (l : list Q) : np_sum (x :: l) == x + np_sum l.
Proof. unfold np_sum at 1. simpl. rewrite foldl_Qplus_acc. lra. Qed.

Lemma np_sum_app (l1 l2 : list Q) : np_sum (l1 ++ l2) == np_sum l1 + np_sum l2.
Proof.
  induction l1 as [|x l1 IH]; simpl.
  - rewrite np_sum_nil. lra.
  - rewrite !np_sum_cons, IH. lra.
Qed.

Lemma np_sum_nonneg (l : list Q) : Forall (fun x => 0 <= x) l -> 0 <= np_sum l.
Proof.
  induction 1 as [|x l Hx _ IH].
  - rewrite np_sum_nil. lra.
  - rewrite np_sum_cons. lra.
Qed.

Lemma np_sum_elem_le (l : list Q) (x : Q) :
  Forall (fun y => 0 <= y) l -> x ∈ l -> x <= np_sum l.
Proof.
  induction 1 as [|y l Hy Hl IH]; intros Hin.
  - by apply elem_of_nil in Hin.
  - rewrite np_sum_cons. pose proof (np_sum_nonneg l Hl).
    apply elem_of_cons in Hin as [->|Hin]; [lra|]. specialize (IH Hin). lra.
Qed.

Lemma np_sum_map_div (l : list Q) (t : Q) :
  np_sum (map (fun x => x / t) l) == np_sum l / t.
Proof.
  induction l as [|x l IH]; simpl.
  - rewrite np_sum_nil. unfold Qdiv. lra.
  - rewrite !np_sum_cons, IH. unfold Qdiv. ring.
Qed.

Lemma np_sum_all_zero (l : list Q) : Forall (fun x => x == 0) l -> np_sum l == 0.
Proof.
  induction 1 as [|x l Hx _ IH].
  - apply np_sum_nil.
  - rewrite np_sum_cons, Hx, IH. lra.
Qed.

Lemma np_sum_Permutation (l1 l2 : list Q) : l1 ≡ₚ l2 -> np_sum l1 == np_sum l2.
Proof.
  induction 1 as [|x l1 l2 _ IH|x y l|l1 l2 l3 _ IH1 _ IH2].
  - reflexivity.
  - by rewrite !np_sum_cons, IH.
  - rewrite !np_sum_cons. lra.
  - by rewrite IH1.
Qed.

Lemma np_sum_removelast_le (l : list Q) :
  Forall (fun x => 0 <= x) l -> np_sum (removelast l) <= np_sum l.
Proof.
  intros Hl. destruct (decide (l = [])) as [->|Hne]; [simpl; lra|].
  rewrite (app_removelast_last 0 Hne) at 2. rewrite np_sum_app, np_sum_cons, np_sum_nil.
  assert (0 <= List.last l 0).
  { rewrite Forall_forall in Hl. apply Hl. rewrite (app_removelast_last 0 Hne) at 2.
    apply elem_of_app. right. apply list_elem_of_here. }
  lra.
Qed.

(** ** [norm_dic] *)

Section NormDicFacts.
Context {K : Type} `{EqDecision K}.
Implicit Types (dic : dict K Q).

(** Filling [new_dic] key by key from a [dict] rebuilds it item by item. *)
Lemma fill_new_dic {V} (f : V -> V) (l acc : dict K V) :
  NoDup (dict_keys (acc ++ l)) ->
  foldl (fun new_dic '(i, w) => dict_set new_dic i (f w)) acc l
  = acc ++ map (fun '(i, w) => (i, f w)) l.
Proof.
  revert acc. induction l as [|[k w] l IH]; intros acc Hnd; simpl.
  - by rewrite app_nil_r.
  - assert (Hk : k ∉ dict_keys acc).
    { unfold dict_keys in *. rewrite fmap_app in Hnd.
      apply NoDup_app in Hnd as (_ & Hdisj & _).
      intros Hin. apply (Hdisj k Hin). simpl. apply list_elem_of_here. }
    rewrite dict_set_fresh by done. rewrite IH.
    + by rewrite <- app_assoc.
    + unfold dict_keys in *. rewrite <- app_assoc. simpl.
      rewrite !fmap_app in *. simpl in *. done.
Qed.

Lemma norm_dic_nonzero dic :
  dict_wf dic -> ~ np_sum (dict_values dic) == 0 ->
  norm_dic dic
  = map (fun '(i, w) => (i, w / np_sum (dict_values dic))) dic.
Proof.
  intros Hwf Ht. unfold norm_dic.
  destruct (Qeq_bool _ 0) eqn:E.
  - by apply Qeq_bool_iff in E.
  - by rewrite (fill_new_dic (fun w => w / np_sum (dict_values dic))).
Qed.

Lemma norm_dic_zero dic : np_sum (dict_values dic) == 0 -> norm_dic dic = dic.
Proof.
  intros Ht. unfold norm_dic. apply Qeq_bool_iff in Ht. by rewrite Ht.
Qed.

Lemma norm_dic_keys dic : dict_wf dic -> dict_keys (norm_dic dic) = dict_keys dic.
Proof.
  intros Hwf. destruct (Qeq_dec (np_sum (dict_values dic)) 0) as [Ht|Ht].
  - by rewrite norm_dic_zero.
  - rewrite norm_dic_nonzero by done. unfold dict_keys.
    rewrite <- list_fmap_compose. apply list_fmap_ext. by intros ? [??].
Qed.

Lemma norm_dic_values dic :
  dict_wf dic -> ~ np_sum (dict_values dic) == 0 ->
  dict_values (norm_dic dic)
  = map (fun w => w / np_sum (dict_values dic)) (dict_values dic).
Proof.
  intros Hwf Ht. rewrite norm_dic_nonzero by done. unfold dict_values.
  rewrite <- !list_fmap_compose. apply list_fmap_ext. by intros ? [??].
Qed.

Lemma norm_dic_lookup dic k w :
  dict_wf dic -> ~ np_sum (dict_values dic) == 0 ->
  dict_lookup dic k = Some w ->
  dict_lookup (norm_dic dic) k = Some (w / np_sum (dict_values dic)).
Proof.
  intros Hwf Ht Hl. apply dict_lookup_elem_wf.
  - unfold dict_wf. by rewrite norm_dic_keys.
  - rewrite norm_dic_nonzero by done.
    apply list_elem_of_fmap. exists (k, w). split; [done|].
    by apply dict_lookup_Some_elem.
Qed.

End NormDicFacts.

(** ** The age-bracket resolver *)

Lemma dict_get_Ok {K V} `{EqDecision K} (d : dict K V) (k : K) (v : V) :
  dict_get d k = Ok v <-> dict_lookup d k = Some v.
Proof.
  unfold dict_get. destruct (dict_lookup d k); split; congruence.
Qed.

(** Filing the ages of one bracket under [b]. *)
Lemma file_bracket_lookup (b : nat) (ages : list Z) (d : dict Z nat) (a : Z) :
  dict_lookup (foldl (fun d a => dict_set d a b) d ages) a
  = if decide (a ∈ ages) then Some b else dict_lookup d a.
Proof.
  revert d. induction ages as [|a0 ages IH]; intros d; cbn [foldl].
  - destruct (decide (a ∈ [])) as [Hin|_]; [by apply elem_of_nil in Hin|done].
  - rewrite IH. destruct (decide (a ∈ ages)) as [Hin|Hnin].
    + destruct (decide (a ∈ a0 :: ages)) as [_|Hn]; [done|].
      exfalso. by apply Hn, list_elem_of_further.
    + destruct (decide (a = a0)) as [->|Hne].
      * destruct (decide (a0 ∈ a0 :: ages)) as [_|Hn];
          [apply dict_lookup_set_eq|].
        exfalso. apply Hn, list_elem_of_here.
      * destruct (decide (a ∈ a0 :: ages)) as [[?|?]%elem_of_cons|_]; [done..|].
        by apply dict_lookup_set_ne.
Qed.

(** An age that every bracket of [l] holding it files under [b] ends up
    under [b], provided some bracket of [l] holds it or it already was. *)
Lemma file_brackets_lookup (l : age_brackets_t) (d : dict Z nat) (a : Z) (b : nat) :
  (forall b' ages', (b', ages') ∈ l -> a ∈ ages' -> b' = b) ->
  (exists ages, (b, ages) ∈ l /\ a ∈ ages) \/ dict_lookup d a = Some b ->
  dict_lookup
    (foldl (fun d '(b, ages) => foldl (fun d a => dict_set d a b) d ages) d l) a
  = Some b.
Proof.
  revert d. induction l as [|[b0 ages0] l IH]; intros d Hsame Hsrc; simpl.
  - destruct Hsrc as [(ages & Hin & _)|Hd]; [by apply elem_of_nil in Hin|done].
  - apply IH.
    + intros b' ages' Hin. apply Hsame. by apply list_elem_of_further.
    + rewrite file_bracket_lookup.
      destruct (decide (a ∈ ages0)) as [Ha0|Ha0].
      * right. f_equal. apply (Hsame b0 ages0); [apply list_elem_of_here|done].
      * destruct Hsrc as [(ages & Hin & Ha)|Hd]; [|by right].
        apply elem_of_cons in Hin as [[= -> ->]|Hin]; [done|].
        left. by exists ages.
Qed.

(** C6. When the brackets partition the age range, the age at every
    index [i] of the age sequence of every bracket [b] is mapped back to
    [b] by the dictionary [get_age_by_brackets_dic] builds. *)
Theorem age_to_bracket_round_trip (age_brackets : age_brackets_t)
    (min_age max_age : Z) (b : nat) (ages : list Z) (i : nat) (a : Z) :
  partitions age_brackets min_age max_age ->
  dict_get age_brackets b = Ok ages ->
  ages !! i = Some a ->
  dict_get (get_age_by_brackets_dic age_brackets) a = Ok b.
Proof.
  intros (_ & _ & Hdisj) Hb Hi.
  apply dict_get_Ok in Hb. apply dict_lookup_Some_elem in Hb.
  assert (Ha : a ∈ ages) by (apply list_elem_of_lookup; eauto).
  apply dict_get_Ok. unfold get_age_by_brackets_dic.
  apply file_brackets_lookup.
  - intros b' ages' Hin' Ha'. by apply (Hdisj b' b ages' ages a).
  - left. by exists ages.
Qed.

Lemma elem_of_np_arange (lo hi a : Z) :
  a ∈ np_arange lo hi <-> (lo <= a < hi)%Z.
Proof.
  unfold np_arange. rewrite list_elem_of_fmap. split.
  - intros (i & -> & Hi). apply elem_of_seq in Hi. lia.
  - intros Ha. exists (Z.to_nat (a - lo)). split; [lia|].
    apply elem_of_seq. lia.
Qed.

Lemma two_brackets_partition : partitions two_brackets 0 99.
Proof.
  split; [|split].
  - unfold dict_wf. simpl. apply (bool_decide_unpack _). vm_compute. exact I.
  - intros a. split.
    + intros Ha. destruct (decide (a < 18)%Z).
      * exists 0%nat, (np_arange 0 18). split; [apply list_elem_of_here|].
        apply elem_of_np_arange. lia.
      * exists 1%nat, (np_arange 18 100).
        split; [apply list_elem_of_further, list_elem_of_here|].
        apply elem_of_np_arange. lia.
    + intros (b & ages & Hin & Ha). unfold two_brackets in Hin.
      repeat (apply elem_of_cons in Hin as [[= -> ->]|Hin]);
        try (apply elem_of_np_arange in Ha; lia).
      by apply elem_of_nil in Hin.
  - intros b1 b2 ages1 ages2 a H1 H2 Ha1 Ha2. unfold two_brackets in H1, H2.
    repeat (apply elem_of_cons in H1 as [[= -> ->]|H1]);
      repeat (apply elem_of_cons in H2 as [[= -> ->]|H2]);
      try done;
      try (by apply elem_of_nil in H1); try (by apply elem_of_nil in H2);
      apply elem_of_np_arange in Ha1; apply elem_of_np_arange in Ha2; lia.
Qed.

Lemma age_to_bracket_round_trip_witness :
  partitions two_brackets 0 99
  /\ dict_get two_brackets 1%nat = Ok (np_arange 18 100)
  /\ np_arange 18 100 !! 5%nat = Some 23%Z
  /\ dict_get (get_age_by_brackets_dic two_brackets) 23%Z = Ok 1%nat.
Proof.
  assert (Hb : dict_get two_brackets 1%nat = Ok (np_arange 18 100)) by reflexivity.
  assert (Hi : np_arange 18 100 !! 5%nat = Some 23%Z) by reflexivity.
  split; [apply two_brackets_partition|].
  split; [exact Hb|]. split; [exact Hi|].
  exact (age_to_bracket_round_trip two_brackets 0 99 1%nat (np_arange 18 100) 5 23
           two_brackets_partition Hb Hi).
Defined.

(** ** The contact matrix combiner *)

Lemma broadcastable_same (n : nat) : broadcastable n n = true.
Proof. unfold broadcastable. by rewrite bool_decide_eq_true_2. Qed.

Lemma broadcastable_spec (n target : nat) :
  broadcastable n target = true <-> n = target \/ n = 1%nat.
Proof.
  unfold broadcastable.
  rewrite orb_true_iff, !bool_decide_eq_true. tauto.
Qed.

(** Adding a matrix of the same shape adds entry by entry. *)
Lemma iadd_same_shape (M A : ndarray) :
  shape A = shape M ->
  exists M', iadd M A = Ok M' /\ shape M' = shape M
    /\ forall i j, (i < nrows M)%nat -> (j < ncols M)%nat ->
         entry M' i j == entry M i j + entry A i j.
Proof.
  unfold shape. intros [= Hr Hc]. unfold iadd.
  rewrite Hr, Hc, !broadcastable_same. simpl.
  eexists. split; [reflexivity|]. split; [reflexivity|].
  intros i j Hi Hj. simpl.
  assert (Ei : (if decide (nrows M = 1%nat) then 0%nat else i) = i)
    by (destruct (decide (nrows M = 1%nat)); lia).
  assert (Ej : (if decide (ncols M = 1%nat) then 0%nat else j) = j)
    by (destruct (decide (ncols M = 1%nat)); lia).
  rewrite Ei, Ej. reflexivity.
Qed.

Lemma iadd_shape (M A M' : ndarray) : iadd M A = Ok M' -> shape M' = shape M.
Proof.
  unfold iadd. destruct (_ && _); [|done]. by intros [= <-].
Qed.

Lemma iadd_exn (M A : ndarray) (e : exn) : iadd M A = Raise e -> e = ValueError.
Proof.
  unfold iadd. destruct (_ && _); [done|]. by intros [= <-].
Qed.

Section Combine.
Variable matrix_dic : dict string ndarray.

(** When every selected matrix is [K]x[K], the loop adds the weighted
    sum of their entries to the accumulator. *)
Lemma combine_from_square (K : nat) (weights_dic : dict string Q) (M : ndarray) :
  (forall A, selected matrix_dic weights_dic A -> shape A = (K, K)) ->
  weights_over weights_dic matrix_dic ->
  shape M = (K, K) ->
  exists M', combine_from matrix_dic weights_dic M = Ok M' /\ shape M' = (K, K)
    /\ forall i j, (i < K)%nat -> (j < K)%nat ->
         entry M' i j == entry M i j + weighted_sum matrix_dic weights_dic i j.
Proof.
  revert M.
  induction weights_dic as [|[code w] weights_dic IH]; intros M Hsq Hover HM.
  - exists M. split; [reflexivity|]. split; [done|].
    intros i j _ _. unfold weighted_sum. simpl. lra.
  - assert (Hcode : is_Some (dict_lookup matrix_dic code)).
    { apply dict_lookup_is_Some, Hover. apply list_elem_of_here. }
    destruct Hcode as [A HA].
    assert (HshA : shape (scale A w) = shape M).
    { rewrite HM. apply (Hsq A). exists code. split; [apply list_elem_of_here|done]. }
    destruct (iadd_same_shape M (scale A w) HshA) as (M1 & HM1 & Hsh1 & Hent1).
    destruct (IH M1) as (M' & HM' & Hsh' & Hent').
    { intros B (c & Hc & HB). apply Hsq. exists c.
      split; [by apply list_elem_of_further|done]. }
    { intros c Hc. apply Hover. by apply list_elem_of_further. }
    { by rewrite Hsh1. }
    exists M'. split; [|split; [done|]].
    + unfold combine_from in *. simpl. unfold dict_get. rewrite HA. simpl.
      by rewrite HM1.
    + intros i j Hi Hj. rewrite (Hent' i j Hi Hj).
      unfold weighted_sum at 2. cbn [foldr].
      fold (weighted_sum matrix_dic weights_dic i j). rewrite HA.
      injection HM as Hr Hc.
      rewrite (Hent1 i j) by lia. simpl. lra.
Qed.

(** The loop keeps the shape of the accumulator, and raises nothing but
    [ValueError] when every selected setting has a matrix. *)
Lemma combine_from_shape (weights_dic : dict string Q) (M M' : ndarray) :
  combine_from matrix_dic weights_dic M = Ok M' -> shape M' = shape M.
Proof.
  revert M. induction weights_dic as [|[code w] weights_dic IH]; intros M.
  - by intros [= <-].
  - unfold combine_from. simpl. destruct (dict_get matrix_dic code) as [A|]; [|done].
    simpl. destruct (iadd M (scale A w)) as [M1|] eqn:E1; [|done].
    intros HM'. apply IH in HM'. rewrite HM'. by apply iadd_shape in E1.
Qed.

Lemma combine_from_broadcast (weights_dic : dict string Q) (M : ndarray) :
  weights_over weights_dic matrix_dic ->
  ((exists A, selected matrix_dic weights_dic A
       /\ broadcastable (nrows A) (nrows M) && broadcastable (ncols A) (ncols M)
          = false) ->
     combine_from matrix_dic weights_dic M = Raise ValueError)
  /\ ((forall A, selected matrix_dic weights_dic A ->
        broadcastable (nrows A) (nrows M) && broadcastable (ncols A) (ncols M)
        = true) ->
      is_ok (combine_from matrix_dic weights_dic M)).
Proof.
  revert M. induction weights_dic as [|[code w] weights_dic IH]; intros M Hover.
  - split.
    + intros (A & (c & Hc & _) & _). by apply elem_of_nil in Hc.
    + intros _. by exists M.
  - assert (Hcode : is_Some (dict_lookup matrix_dic code)).
    { apply dict_lookup_is_Some, Hover. apply list_elem_of_here. }
    destruct Hcode as [A HA].
    assert (Hover' : weights_over weights_dic matrix_dic).
    { intros c Hc. apply Hover. by apply list_elem_of_further. }
    unfold combine_from. cbn [for_each]. unfold dict_get. rewrite HA.
    cbn [bind_result]. fold (combine_from matrix_dic weights_dic).
    destruct (iadd M (scale A w)) as [M1|e] eqn:E1.
    + pose proof (iadd_shape _ _ _ E1) as [= Hr1 Hc1].
      destruct (IH M1 Hover') as [IHbad IHok]. rewrite Hr1, Hc1 in *.
      cbn [bind_result]. split.
      * intros (B & (c & Hc & HB) & Hbad). apply IHbad.
        exists B. split; [|done]. exists c. split; [|done].
        unfold dict_keys in Hc. simpl in Hc.
        apply elem_of_cons in Hc as [->|Hc]; [|done].
        exfalso. assert (B = A) as -> by congruence.
        unfold iadd in E1. simpl in E1. by rewrite Hbad in E1.
      * intros Hall. apply IHok. intros B (c & Hc & HB). apply Hall.
        exists c. split; [by apply list_elem_of_further|done].
    + apply iadd_exn in E1 as Ee. subst e. cbn [bind_result]. split; [done|].
      intros Hall. exfalso.
      assert (HA' : selected matrix_dic ((code, w) :: weights_dic) A)
        by (exists code; split; [apply list_elem_of_here|done]).
      apply Hall in HA'. unfold iadd in E1. simpl in E1. by rewrite HA' in E1.
Qed.

(** With every weight zero the weighted sum vanishes. *)
Lemma weighted_sum_zero (weights_dic : dict string Q) (i j : nat) :
  Forall (fun w => w == 0) (dict_values weights_dic) ->
  weighted_sum matrix_dic weights_dic i j == 0.
Proof.
  induction weights_dic as [|[code w] weights_dic IH]; simpl; intros Hz.
  - reflexivity.
  - apply Forall_cons in Hz as [Hw Hz]. specialize (IH Hz).
    destruct (dict_lookup matrix_dic code); [|done].
    rewrite Hw, IH. lra.
Qed.

(** With weight 1 on [s] and 0 elsewhere it is the entry of [s]'s matrix,
    once if [s] is in the weight set. *)
Lemma weighted_sum_unit (weights_dic : dict string Q) (s : string)
    (A : ndarray) (i j : nat) :
  dict_wf weights_dic ->
  dict_lookup matrix_dic s = Some A ->
  (forall code w, (code, w) ∈ weights_dic ->
     w == if decide (code = s) then 1 else 0) ->
  weighted_sum matrix_dic weights_dic i j
  == if decide (s ∈ dict_keys weights_dic) then entry A i j else 0.
Proof.
  intros Hwf HA.
  induction weights_dic as [|[code w] weights_dic IH]; intros Hw.
  - destruct (decide (s ∈ dict_keys [])) as [Hin|_];
      [by apply elem_of_nil in Hin|reflexivity].
  - apply NoDup_cons in Hwf as [Hcode Hwf]. fold (dict_keys weights_dic) in *.
    assert (Hw' : forall c v, (c, v) ∈ weights_dic ->
               v == if decide (c = s) then 1 else 0).
    { intros c v Hin. apply Hw. by apply list_elem_of_further. }
    specialize (IH Hwf Hw').
    pose proof (Hw code w (list_elem_of_here _ _)) as Hcw.
    cbn [weighted_sum foldr]. fold (weighted_sum matrix_dic weights_dic i j).
    destruct (decide (code = s)) as [->|Hne]; cbv iota in Hcw.
    + rewrite HA, IH.
      destruct (decide (s ∈ dict_keys ((s, w) :: weights_dic))) as [_|Hn];
        [|exfalso; apply Hn, list_elem_of_here].
      destruct (decide (s ∈ dict_keys weights_dic)); [done|].
      rewrite Hcw. lra.
    + assert (Hiff : s ∈ dict_keys ((code, w) :: weights_dic)
                     <-> s ∈ dict_keys weights_dic).
      { unfold dict_keys. simpl. rewrite elem_of_cons.
        split; [intros [?|?]; [congruence|done]|by right]. }
      destruct (decide (s ∈ dict_keys ((code, w) :: weights_dic))) as [Hs|Hs];
        destruct (decide (s ∈ dict_keys weights_dic)) as [Hs'|Hs'];
        try tauto;
        destruct (dict_lookup matrix_dic code) as [B|];
        rewrite IH, ?Hcw; lra.
Qed.
End Combine.

(** C7. For a dictionary of [K]x[K] matrices, a weight set that maps
    every setting to zero combines to the all-zero [K]x[K] matrix, and a
    weight set with weight 1 on one setting and 0 on all others combines to
    that setting's matrix, entry for entry. *)
Theorem combine_matrices_zero_and_unit (matrix_dic : dict string ndarray)
    (weights_dic : dict string Q) (K : nat) :
  square_matrices matrix_dic K ->
  weights_over weights_dic matrix_dic ->
  dict_wf weights_dic ->
  (Forall (fun w => w == 0) (dict_values weights_dic) ->
     exists M, combine_matrices matrix_dic weights_dic K = Ok M
       /\ array_eq M (np_zeros K K))
  /\ (forall s A,
        dict_lookup matrix_dic s = Some A ->
        s ∈ dict_keys weights_dic ->
        (forall code w, (code, w) ∈ weights_dic ->
           w == if decide (code = s) then 1 else 0) ->
        exists M, combine_matrices matrix_dic weights_dic K = Ok M
          /\ array_eq M A).
Proof.
  intros Hsq Hover Hwf.
  assert (Hsel : forall A, selected matrix_dic weights_dic A -> shape A = (K, K)).
  { intros A (c & _ & HA). apply (Hsq c). by apply dict_lookup_Some_elem. }
  destruct (combine_from_square matrix_dic K weights_dic (np_zeros K K)
              Hsel Hover eq_refl) as (M & HM & Hsh & Hent).
  split.
  - intros Hz. exists M. split; [done|]. split; [done|].
    injection Hsh as Hr Hc. intros i j Hi Hj.
    rewrite Hent by lia. rewrite weighted_sum_zero by done. simpl. lra.
  - intros s A HA Hs Hw. exists M. split; [done|].
    assert (HshA : shape A = (K, K))
      by (apply (Hsq s); by apply dict_lookup_Some_elem).
    split; [by rewrite HshA|].
    injection Hsh as Hr Hc. intros i j Hi Hj.
    rewrite Hent by lia. rewrite (weighted_sum_unit matrix_dic weights_dic s A) by done.
    destruct (decide (s ∈ dict_keys weights_dic)); [|done]. simpl. lra.
Qed.

Lemma combine_matrices_zero_and_unit_witness :
  square_matrices two_settings 2
  /\ weights_over schools_closed two_settings
  /\ dict_wf schools_closed
  /\ exists M, combine_matrices two_settings schools_closed 2 = Ok M
       /\ array_eq M cross_matrix.
Proof.
  assert (Hsq : square_matrices two_settings 2).
  { intros code A Hin. unfold two_settings in Hin.
    repeat (apply elem_of_cons in Hin as [[= -> ->]|Hin]); try reflexivity.
    by apply elem_of_nil in Hin. }
  assert (Hover : weights_over schools_closed two_settings)
    by (intros code Hc; exact Hc).
  assert (Hwf : dict_wf schools_closed)
    by (unfold dict_wf; simpl; apply (bool_decide_unpack _); vm_compute; exact I).
  split; [exact Hsq|]. split; [exact Hover|]. split; [exact Hwf|].
  destruct (combine_matrices_zero_and_unit two_settings schools_closed 2
              Hsq Hover Hwf) as [_ Hunit].
  apply (Hunit "H"%string cross_matrix).
  - reflexivity.
  - apply list_elem_of_here.
  - intros code w Hin. unfold schools_closed in Hin.
    repeat (apply elem_of_cons in Hin as [[= -> ->]|Hin]); try reflexivity.
    by apply elem_of_nil in Hin.
Defined.

Lemma broadcasts_to_spec (A : ndarray) (K : nat) :
  broadcastable (nrows A) K && broadcastable (ncols A) K = true
  <-> broadcasts_to A K.
Proof.
  unfold broadcasts_to. by rewrite andb_true_iff, !broadcastable_spec.
Qed.

(** C9, the claim as stated fails: the household matrix is 2x2 and the
    school matrix 1x1, both are selected, and [combine_matrices] returns a
    matrix (the school entry added to every household entry) instead of
    failing. *)
Lemma combine_matrices_broadcasts_silently :
  selected mixed_sizes weights_H_S mat_2x2
  /\ selected mixed_sizes weights_H_S mat_1x1
  /\ shape mat_2x2 <> shape mat_1x1
  /\ exists M, combine_matrices mixed_sizes weights_H_S 2 = Ok M
       /\ to_rows M = [[6; 7]; [8; 9]].
Proof.
  split; [|split; [|split]].
  - exists "H"%string. split; [apply list_elem_of_here|reflexivity].
  - exists "S"%string.
    split; [apply list_elem_of_further, list_elem_of_here|reflexivity].
  - discriminate.
  - eexists. split; [reflexivity|]. vm_compute. reflexivity.
Qed.

(** C9, amended. With a weight set over settings of the dictionary,
    [combine_matrices] fails, with numpy's [ValueError], when a selected
    matrix has a row or column count that is neither [num_agebrackets] nor
    1; when every selected matrix can be broadcast, and in particular when
    all of them are [K]x[K] with [K = num_agebrackets], it returns a
    [K]x[K] matrix. *)
Theorem combine_matrices_shape (matrix_dic : dict string ndarray)
    (weights_dic : dict string Q) (K : nat) :
  weights_over weights_dic matrix_dic ->
  ((exists A, selected matrix_dic weights_dic A /\ ~ broadcasts_to A K) ->
     combine_matrices matrix_dic weights_dic K = Raise ValueError)
  /\ ((forall A, selected matrix_dic weights_dic A -> broadcasts_to A K) ->
      exists M, combine_matrices matrix_dic weights_dic K = Ok M
        /\ shape M = (K, K))
  /\ ((forall A, selected matrix_dic weights_dic A -> shape A = (K, K)) ->
      exists M, combine_matrices matrix_dic weights_dic K = Ok M
        /\ shape M = (K, K)).
Proof.
  intros Hover. unfold combine_matrices.
  destruct (combine_from_broadcast matrix_dic weights_dic (np_zeros K K) Hover)
    as [Hbad Hok]. simpl in Hbad, Hok.
  assert (Hgood : (forall A, selected matrix_dic weights_dic A -> broadcasts_to A K) ->
            exists M, combine_from matrix_dic weights_dic (np_zeros K K) = Ok M
              /\ shape M = (K, K)).
  { intros Hall. destruct Hok as [M HM].
    - intros A HA. by apply broadcasts_to_spec, Hall.
    - exists M. split; [done|]. by apply combine_from_shape in HM. }
  split; [|split; [exact Hgood|]].
  - intros (A & HA & Hn). apply Hbad. exists A. split; [done|].
    apply not_true_is_false. by rewrite broadcasts_to_spec.
  - intros Hall. apply Hgood. intros A HA. apply Hall in HA.
    injection HA as Hr Hc. split; by left.
Qed.

Lemma combine_matrices_shape_witness :
  weights_over weights_H_S unfit_sizes
  /\ (exists A, selected unfit_sizes weights_H_S A /\ ~ broadcasts_to A 2)
  /\ combine_matrices unfit_sizes weights_H_S 2 = Raise ValueError.
Proof.
  assert (Hover : weights_over weights_H_S unfit_sizes)
    by (intros code Hc; exact Hc).
  assert (Hbad : exists A, selected unfit_sizes weights_H_S A /\ ~ broadcasts_to A 2).
  { exists mat_3x3. split.
    - exists "S"%string.
      split; [apply list_elem_of_further, list_elem_of_here|reflexivity].
    - intros [[Hr|Hr] _]; discriminate Hr. }
  split; [exact Hover|]. split; [exact Hbad|].
  exact (proj1 (combine_matrices_shape unfit_sizes weights_H_S 2 Hover) Hbad).
Defined.

(** The contract of the combiner: for selected matrices that are all
    [K]x[K], entry [(i, j)] of the result is the sum over the settings of
    the weight set of [weight[setting] * matrix[setting][i, j]]. *)
Theorem combine_matrices_weighted_sum (matrix_dic : dict string ndarray)
    (weights_dic : dict string Q) (K : nat) :
  weights_over weights_dic matrix_dic ->
  (forall A, selected matrix_dic weights_dic A -> shape A = (K, K)) ->
  exists M, combine_matrices matrix_dic weights_dic K = Ok M
    /\ shape M = (K, K)
    /\ forall i j, (i < K)%nat -> (j < K)%nat ->
         entry M i j == weighted_sum matrix_dic weights_dic i j.
Proof.
  intros Hover Hsel.
  destruct (combine_from_square matrix_dic K weights_dic (np_zeros K K)
              Hsel Hover eq_refl) as (M & HM & Hsh & Hent).
  exists M. split; [exact HM|]. split; [exact Hsh|].
  intros i j Hi Hj. rewrite (Hent i j Hi Hj). simpl. lra.
Qed.

Lemma combine_matrices_weighted_sum_witness :
  weights_over schools_closed two_settings
  /\ (forall A, selected two_settings schools_closed A -> shape A = (2%nat, 2%nat))
  /\ exists M, combine_matrices two_settings schools_closed 2 = Ok M
       /\ shape M = (2%nat, 2%nat)
       /\ forall i j, (i < 2)%nat -> (j < 2)%nat ->
            entry M i j == weighted_sum two_settings schools_closed i j.
Proof.
  assert (Hover : weights_over schools_closed two_settings)
    by (intros code Hc; exact Hc).
  assert (Hsel : forall A, selected two_settings schools_closed A ->
                   shape A = (2%nat, 2%nat)).
  { intros A (code & Hc & HA). unfold schools_closed, dict_keys in Hc.
    simpl in Hc.
    repeat (apply elem_of_cons in Hc as [->|Hc]);
      [by injection HA as <-..|by apply elem_of_nil in Hc]. }
  split; [exact Hover|]. split; [exact Hsel|].
  exact (combine_matrices_weighted_sum two_settings schools_closed 2 Hover Hsel).
Defined.

(** ** Running the [rand] monad *)

Lemma bind_run {A B} (m : rand A) (k : A -> rand B) (s s' : RandomState) (a : A) :
  m s = (Ok a, s') -> bind m k s = k a s'.
Proof. intros Hm. unfold bind. by rewrite Hm. Qed.

Lemma bind_fail {A B} (m : rand A) (k : A -> rand B) (s s' : RandomState) (e : exn) :
  m s = (Raise e, s') -> bind m k s = (Raise e, s').
Proof. intros Hm. unfold bind. by rewrite Hm. Qed.

Lemma bind_lift_Ok {A B} (a : A) (k : A -> rand B) (s : RandomState) :
  bind (lift (Ok a)) k s = k a s.
Proof. reflexivity. Qed.

(** ** The random source *)

Lemma uniform_of_range (raw : Q) : 0 <= uniform_of raw /\ uniform_of raw < 1.
Proof.
  unfold uniform_of.
  pose proof (Qfloor_le raw) as Hle. pose proof (Qlt_floor raw) as Hlt.
  rewrite inject_Z_plus in Hlt. change (inject_Z 1) with 1 in Hlt.
  split; lra.
Qed.

Lemma random_sample_run (s : RandomState) :
  random_sample s = (Ok (uniform_of (s 0%nat)), advance s).
Proof. reflexivity. Qed.

Lemma Qlt_bool_iff (x y : Q) : Qlt_bool x y = true <-> x < y.
Proof.
  unfold Qlt_bool. rewrite negb_true_iff, <- not_true_iff_false, Qle_bool_iff.
  split; [apply Qnot_le_lt|apply Qlt_not_le].
Qed.

Lemma Qlt_bool_false (x y : Q) : Qlt_bool x y = false <-> y <= x.
Proof.
  unfold Qlt_bool. rewrite negb_false_iff. apply Qle_bool_iff.
Qed.

Lemma randint_run (n : nat) (s : RandomState) :
  (0 < n)%nat ->
  exists i, randint n s = (Ok i, advance s) /\ (i < n)%nat.
Proof.
  intros Hn. unfold randint, bind. rewrite random_sample_run. unfold ret.
  eexists. split; [reflexivity|].
  destruct (uniform_of_range (s 0%nat)) as [H0 H1].
  set (u := uniform_of (s 0%nat)) in *.
  set (m := inject_Z (Z.of_nat n)).
  assert (Hm : 0 < m).
  { unfold m. change 0 with (inject_Z 0). rewrite <- Zlt_Qlt. lia. }
  assert (Hlo : 0 <= u * m) by (apply Qmult_le_0_compat; lra).
  assert (Hhi : u * m < 1 * m) by (apply Qmult_lt_compat_r; assumption).
  pose proof (Qfloor_le (u * m)) as Hfl. pose proof (Qlt_floor (u * m)) as Hfu.
  assert (Hz0 : (0 <= Qfloor (u * m))%Z).
  { assert (H : inject_Z (-1) < inject_Z (Qfloor (u * m))).
    { rewrite inject_Z_plus in Hfu. change (inject_Z 1) with 1 in Hfu.
      change (inject_Z (-1)) with (-1). lra. }
    rewrite <- Zlt_Qlt in H. lia. }
  assert (Hzn : (Qfloor (u * m) < Z.of_nat n)%Z).
  { rewrite Zlt_Qlt. fold m. lra. }
  lia.
Qed.

Lemma bernoulli_run (p : Q) (s : RandomState) :
  bernoulli p s
  = (Ok (if Qlt_bool (uniform_of (s 0%nat)) p then 1%nat else 0%nat), advance s).
Proof. reflexivity. Qed.

(** A trial whose probability is not positive never succeeds. *)
Lemma bernoulli_never (p : Q) (s : RandomState) :
  p <= 0 -> bernoulli p s = (Ok 0%nat, advance s).
Proof.
  intros Hp. rewrite bernoulli_run.
  destruct (Qlt_bool _ p) eqn:E; [|done].
  apply Qlt_bool_iff in E. destruct (uniform_of_range (s 0%nat)). lra.
Qed.

Lemma np_random_choice_run {A} (a : list A) (s : RandomState) :
  a <> [] ->
  exists x, np_random_choice a s = (Ok x, advance s) /\ x ∈ a.
Proof.
  intros Ha. destruct a as [|x0 a']; [done|]. unfold np_random_choice.
  set (a := x0 :: a'). destruct (randint_run (length a) s) as (i & Hi & Hlt).
  { simpl. lia. }
  unfold bind. rewrite Hi. unfold lift, getitem.
  destruct (lookup_lt_is_Some_2 a i Hlt) as [x Hx]. rewrite Hx.
  exists x. split; [done|]. by apply list_elem_of_lookup_2 in Hx.
Qed.

(** ** [np.random.multinomial] *)

Lemma np_where_from_zeros (k n : nat) : np_where_from k (replicate n 0%nat) = [].
Proof. revert k. induction n as [|n IH]; intros k; simpl; [done|apply IH]. Qed.

Lemma multinomial_trial_cons (p p' : Q) (pix : list Q) (Sum : Q) :
  multinomial_trial (p :: p' :: pix) Sum
  = let* hit := bernoulli (p / Sum) in
    if decide (hit = 0%nat) then
      let* counts := multinomial_trial (p' :: pix) (Sum - p) in
      ret (0%nat :: counts)
    else ret (hit :: replicate (length (p' :: pix)) 0%nat).
Proof. reflexivity. Qed.

(** One trial marks exactly one position of [pix]. *)
Lemma multinomial_trial_run (pix : list Q) (Sum : Q) (s : RandomState) (k : nat) :
  pix <> [] ->
  exists counts s' i,
    multinomial_trial pix Sum s = (Ok counts, s')
    /\ (i < length pix)%nat
    /\ np_where_from k counts = [(k + i)%nat].
Proof.
  revert Sum s k. induction pix as [|p pix IH]; intros Sum s k Hne; [done|].
  destruct pix as [|p' pix].
  - exists [1%nat], s, 0%nat. simpl. split; [done|]. split; [lia|].
    by rewrite Nat.add_0_r.
  - rewrite multinomial_trial_cons. unfold bind at 1. rewrite bernoulli_run.
    destruct (Qlt_bool _ _).
    + rewrite decide_False by done. unfold ret.
      eexists _, _, 0%nat. split; [reflexivity|]. split; [simpl; lia|].
      cbn [np_where_from]. rewrite decide_False by done.
      rewrite np_where_from_zeros. by rewrite Nat.add_0_r.
    + rewrite decide_True by done.
      destruct (IH (Sum - p) (advance s) (S k)) as (counts & s' & i & Hrun & Hi & Hw);
        [done|].
      unfold bind. rewrite Hrun. unfold ret.
      exists (0%nat :: counts), s', (S i). split; [done|].
      split; [simpl in *; lia|].
      cbn [np_where_from]. rewrite decide_True by done.
      rewrite Hw. f_equal. lia.
Qed.

Lemma check_pvals_valid (l : list Q) :
  Forall (fun q => 0 <= q /\ q <= 1) l -> check_pvals (map Finite l) = Some l.
Proof.
  induction 1 as [|q l [H0 H1] _ IH]; simpl; [done|].
  rewrite (proj2 (Qle_bool_iff 0 q) H0), (proj2 (Qle_bool_iff q 1) H1). simpl.
  by rewrite IH.
Qed.

Lemma check_pvals_invalid (pvals : list float64) :
  Exists bad_pval pvals -> check_pvals pvals = None.
Proof.
  induction pvals as [|p pvals IH]; intros Hex; [by apply Exists_nil in Hex|].
  apply Exists_cons in Hex. destruct p as [q| | |]; simpl; try done.
  destruct (Qle_bool 0 q && Qle_bool q 1) eqn:E; [|done].
  apply andb_true_iff in E as [E0 E1].
  apply Qle_bool_iff in E0. apply Qle_bool_iff in E1.
  destruct Hex as [[Hq|Hq]|Hex]; [lra|lra|]. by rewrite IH.
Qed.

Lemma np_random_multinomial1_invalid (pvals : list float64) (s : RandomState) :
  Exists bad_pval pvals -> np_random_multinomial1 pvals s = (Raise ValueError, s).
Proof.
  intros Hex. unfold np_random_multinomial1. by rewrite check_pvals_invalid.
Qed.

Lemma np_where_from_last_one (k n : nat) :
  np_where_from k (replicate n 0%nat ++ [1%nat]) = [(k + n)%nat].
Proof.
  revert k. induction n as [|n IH]; intros k; simpl.
  - by rewrite Nat.add_0_r.
  - rewrite IH. f_equal. lia.
Qed.

(** When every entry before the last is zero, the trial always falls on
    the last entry, whatever its own value. *)
Lemma multinomial_trial_zeros (pix : list Q) (Sum : Q) (s : RandomState) :
  pix <> [] -> Forall (fun p => p == 0) (removelast pix) ->
  exists s',
    multinomial_trial pix Sum s
    = (Ok (replicate (length pix - 1) 0%nat ++ [1%nat]), s').
Proof.
  revert Sum s. induction pix as [|p pix IH]; intros Sum s Hne Hz; [done|].
  destruct pix as [|p' pix].
  - by exists s.
  - rewrite multinomial_trial_cons.
    change (removelast (p :: p' :: pix)) with (p :: removelast (p' :: pix)) in Hz.
    apply Forall_cons in Hz as [Hp Hz].
    assert (Hq : p / Sum <= 0) by (rewrite Hp; unfold Qdiv; lra).
    rewrite (bind_run _ _ _ _ _ (bernoulli_never (p / Sum) s Hq)).
    rewrite decide_True by done.
    destruct (IH (Sum - p) (advance s)) as [s' Hrun]; [done|done|].
    exists s'. rewrite (bind_run _ _ _ _ _ Hrun). unfold ret.
    simpl. by rewrite Nat.sub_0_r.
Qed.


(** ** [sorted] and list comprehensions over a [dict] *)

Lemma insert_sorted_Permutation {A} (le : A -> A -> bool) (x : A) (l : list A) :
  insert_sorted le x l ≡ₚ x :: l.
Proof.
  induction l as [|y l IH]; simpl; [done|].
  destruct (le x y); [done|]. rewrite IH. apply perm_swap.
Qed.

Lemma sorted_Permutation {A} (le : A -> A -> bool) (l : list A) : sorted le l ≡ₚ l.
Proof.
  induction l as [|x l IH]; simpl; [done|].
  rewrite insert_sorted_Permutation. by rewrite IH.
Qed.

Lemma map_result_dict_get {K V} `{EqDecision K} (d : dict K V) (ks : list K) :
  (forall k, k ∈ ks -> k ∈ dict_keys d) ->
  exists vs, map_result (dict_get d) ks = Ok vs
    /\ Forall2 (fun k v => dict_lookup d k = Some v) ks vs.
Proof.
  induction ks as [|k ks IH]; intros Hks.
  - exists []. split; [done|constructor].
  - destruct IH as (vs & Hvs & Hall).
    { intros k' Hk'. apply Hks. by apply list_elem_of_further. }
    destruct (proj2 (dict_lookup_is_Some d k)) as [v Hv].
    { apply Hks. apply list_elem_of_here. }
    exists (v :: vs). split; [|by constructor].
    simpl. unfold dict_get at 1. rewrite Hv. simpl. by rewrite Hvs.
Qed.

(** The weights read off in sorted key order contain every weight. *)
Lemma sorted_distr_complete {K V} `{EqDecision K} (key_le : K -> K -> bool)
    (d : dict K V) :
  exists vs, map_result (dict_get d) (sorted key_le (dict_keys d)) = Ok vs
    /\ forall k v, dict_lookup d k = Some v -> v ∈ vs.
Proof.
  destruct (map_result_dict_get d (sorted key_le (dict_keys d))) as (vs & Hvs & Hall).
  { intros k. by rewrite sorted_Permutation. }
  exists vs. split; [done|]. intros k v Hkv.
  assert (Hk : k ∈ sorted key_le (dict_keys d)).
  { rewrite sorted_Permutation. apply dict_lookup_is_Some. by eexists. }
  apply list_elem_of_lookup in Hk as [i Hi].
  destruct (Forall2_lookup_l _ _ _ _ _ Hall Hi) as (v' & Hv' & Hlk).
  assert (v' = v) as -> by congruence.
  by apply list_elem_of_lookup_2 in Hv'.
Qed.

(** ** The categorical sampler *)

(** C10. For an input that is neither a [dict] nor a numpy array, for
    example a plain list of weights, [sample_single] returns [None]: no
    sample, no error, and the random state is left untouched. *)
Theorem sample_single_other_type {K : Type} `{EqDecision K}
    (key_le : K -> K -> bool) (distr : distribution K) (s : RandomState) :
  is_dict distr = false ->
  is_ndarray distr = false ->
  sample_single key_le distr s = (Ok PyNone, s).
Proof. destruct distr; intros Hd Ha; try discriminate; reflexivity. Qed.

Lemma sample_single_other_type_witness :
  is_dict (PyList (K:=string) [2 # 10; 8 # 10]) = false
  /\ is_ndarray (PyList (K:=string) [2 # 10; 8 # 10]) = false
  /\ forall s, sample_single String.leb (PyList [2 # 10; 8 # 10]) s = (Ok PyNone, s).
Proof.
  split; [reflexivity|]. split; [reflexivity|].
  intros s.
  exact (sample_single_other_type String.leb (PyList [2 # 10; 8 # 10]) s
           eq_refl eq_refl).
Defined.

Lemma Qdiv_neg_pos (x t : Q) : x < 0 -> 0 < t -> x / t < 0.
Proof. intros Hx Ht. apply Qlt_shift_div_r; [done|lra]. Qed.

Lemma Qdiv_pos_neg (x t : Q) : 0 < x -> t < 0 -> x / t < 0.
Proof.
  intros Hx Ht. assert (E : x / t == (- x) / (- t)) by (field; lra).
  rewrite E. apply Qlt_shift_div_r; lra.
Qed.

Lemma Qdiv_unit_range (x t : Q) : 0 <= x -> x <= t -> 0 < t -> 0 <= x / t /\ x / t <= 1.
Proof.
  intros Hx Hxt Ht. split.
  - apply Qle_shift_div_l; [done|lra].
  - apply Qle_shift_div_r; [done|lra].
Qed.

Lemma np_divide_finite (x t : Q) : ~ t == 0 -> np_divide x t = Finite (x / t).
Proof.
  intros Ht. unfold np_divide. destruct (Qeq_bool t 0) eqn:E; [|done].
  by apply Qeq_bool_iff in E.
Qed.

(** A quotient numpy's [multinomial] will reject: any division by a zero
    total, and a weight whose sign is opposite to the total's. *)
Lemma np_divide_bad (x t : Q) :
  t == 0 \/ (x < 0 /\ 0 < t) \/ (0 < x /\ t < 0) -> bad_pval (np_divide x t).
Proof.
  intros Hcase. unfold np_divide. destruct (Qeq_bool t 0) eqn:E.
  - by destruct (x ?= 0).
  - apply Qeq_bool_neq in E. simpl. left.
    destruct Hcase as [Ht|[[Hx Ht]|[Hx Ht]]]; [done| |].
    + by apply Qdiv_neg_pos.
    + by apply Qdiv_pos_neg.
Qed.

Lemma removelast_map {A B} (f : A -> B) (l : list A) :
  removelast (map f l) = map f (removelast l).
Proof.
  induction l as [|x [|y l] IH]; [done..|].
  change (removelast (x :: y :: l)) with (x :: removelast (y :: l)).
  change (map f (x :: y :: l)) with (f x :: map f (y :: l)).
  change (removelast (f x :: map f (y :: l)))
    with (f x :: removelast (map f (y :: l))).
  by rewrite IH.
Qed.

Section SamplerFacts.
Context {K : Type} `{EqDecision K} (key_le : K -> K -> bool).

Lemma sample_single_array_invalid (a : list Q) (s : RandomState) :
  Exists (fun x => bad_pval (np_divide x (np_sum a))) a ->
  sample_single key_le (PyArray a) s = (Raise ValueError, s).
Proof.
  intros Hex. unfold sample_single.
  apply bind_fail, np_random_multinomial1_invalid.
  by apply Exists_fmap.
Qed.

(** For non-negative weights with a nonzero total the argument checks of
    [multinomial] pass, and the sample is the position the trial marks. *)
Lemma sample_single_array_trial (a : list Q) (s : RandomState) :
  Forall (fun x => 0 <= x) a -> ~ np_sum a == 0 ->
  sample_single key_le (PyArray a) s
  = (let* n := multinomial_trial (map (fun x => x / np_sum a) a) 1 in
     let* index := lift (getitem (np_where n) 0) in
     ret (Index index)) s.
Proof.
  intros Hnn Ht.
  assert (Hpos : 0 < np_sum a) by (pose proof (np_sum_nonneg a Hnn); lra).
  set (t := np_sum a) in *.
  set (pix := map (fun x => x / t) a).
  assert (Hpv : map (fun x => np_divide x t) a = map Finite pix).
  { unfold pix. rewrite <- list_fmap_compose. apply list_fmap_ext.
    intros i x _. by apply np_divide_finite. }
  assert (Hrange : Forall (fun q => 0 <= q /\ q <= 1) pix).
  { unfold pix. apply Forall_fmap, Forall_forall. intros x Hx. simpl.
    apply Qdiv_unit_range; [|by apply np_sum_elem_le|done].
    by apply (proj1 (Forall_forall _ _) Hnn). }
  assert (Hmass : np_sum (removelast pix) <= 1).
  { apply Qle_trans with (np_sum pix).
    - apply np_sum_removelast_le.
      eapply Forall_impl; [exact Hrange|]. by intros q [? _].
    - unfold pix. rewrite np_sum_map_div. fold t.
      assert (E : t / t == 1) by (field; lra). rewrite E. lra. }
  unfold sample_single. fold t. rewrite Hpv.
  unfold np_random_multinomial1. rewrite check_pvals_valid by done.
  assert (Hchk : Qlt_bool (1 + 1 / 1000000000000) (np_sum (removelast pix)) = false).
  { apply Qlt_bool_false. assert (0 <= 1 / 1000000000000) by done. lra. }
  by rewrite Hchk.
Qed.

(** Non-negative weights with a nonzero total are sampled without error,
    and the index drawn is one of the array. *)
Lemma sample_single_array_ok (a : list Q) (s : RandomState) :
  a <> [] -> Forall (fun x => 0 <= x) a -> ~ np_sum a == 0 ->
  exists i s',
    sample_single key_le (PyArray a) s = (Ok (Index i), s') /\ (i < length a)%nat.
Proof.
  intros Hne Hnn Ht. rewrite sample_single_array_trial by done.
  destruct (multinomial_trial_run (map (fun x => x / np_sum a) a) 1 s 0)
    as (counts & s' & i & Hrun & Hi & Hw).
  { by destruct a. }
  exists i, s'. split; [|by rewrite length_map in Hi].
  rewrite (bind_run _ _ _ _ _ Hrun).
  unfold np_where. by rewrite Hw.
Qed.

(** When all the weight is on the last entry, the last index is drawn. *)
Lemma sample_single_array_last (a : list Q) (s : RandomState) :
  a <> [] -> Forall (fun x => 0 <= x) a -> ~ np_sum a == 0 ->
  Forall (fun x => x == 0) (removelast a) ->
  exists s',
    sample_single key_le (PyArray a) s = (Ok (Index (length a - 1)), s').
Proof.
  intros Hne Hnn Ht Hz. rewrite sample_single_array_trial by done.
  destruct (multinomial_trial_zeros (map (fun x => x / np_sum a) a) 1 s)
    as [s' Hrun].
  { by destruct a. }
  { rewrite removelast_map. apply Forall_fmap.
    eapply Forall_impl; [exact Hz|].
    intros x Hx. simpl in *. rewrite Hx. unfold Qdiv. lra. }
  exists s'. rewrite (bind_run _ _ _ _ _ Hrun).
  unfold np_where. rewrite np_where_from_last_one, length_map. reflexivity.
Qed.
End SamplerFacts.

Section DictSamplerFacts.
Context {K : Type} `{EqDecision K} (key_le : K -> K -> bool).

(** The weights in sorted key order are the weights, rearranged. *)
Lemma sorted_distr_Permutation (d : dict K Q) :
  dict_wf d ->
  exists vs, map_result (dict_get d) (sorted key_le (dict_keys d)) = Ok vs
    /\ vs ≡ₚ dict_values d
    /\ length vs = length (sorted key_le (dict_keys d)).
Proof.
  intros Hwf.
  destruct (map_result_dict_get d (sorted key_le (dict_keys d))) as (vs & Hvs & Hall).
  { intros k. by rewrite sorted_Permutation. }
  exists vs. split; [done|]. split; [|symmetry; by eapply Forall2_length].
  set (f := fun k => default 0 (dict_lookup d k)).
  assert (Evs : vs = map f (sorted key_le (dict_keys d))).
  { clear Hvs. induction Hall as [|k v ks vs' Hkv _ IH]; [done|].
    simpl. unfold f at 1. rewrite Hkv. simpl. by rewrite IH. }
  assert (Evals : dict_values d = map f (dict_keys d)).
  { unfold dict_values, dict_keys. rewrite <- list_fmap_compose.
    apply Forall_fmap_ext, Forall_forall. intros [k v] Hin. simpl. unfold f.
    by rewrite (dict_lookup_elem_wf d k v Hwf Hin). }
  rewrite Evs, Evals. apply fmap_Permutation, sorted_Permutation.
Qed.

(** A non-empty [dict] whose weights are all zero is not rejected: its
    last key in sorted order is returned. *)
Lemma sample_single_zero_dict (d : dict K Q) (s : RandomState) :
  dict_wf d -> d <> [] -> Forall (fun w => w == 0) (dict_values d) ->
  exists k s',
    sample_single key_le (PyDict d) s = (Ok (Key k), s')
    /\ last (sorted key_le (dict_keys d)) = Some k.
Proof.
  intros Hwf Hne Hz. unfold sample_single.
  rewrite (norm_dic_zero d (np_sum_all_zero _ Hz)).
  destruct (sorted_distr_Permutation d Hwf) as (vs & Hvs & Hperm & Hlen).
  set (sorted_keys := sorted key_le (dict_keys d)) in *.
  assert (Hvz : Forall (fun w => w == 0) vs) by (by rewrite Hperm).
  assert (Hvne : vs <> []).
  { intros ->. apply Permutation_nil_l in Hperm. by destruct d. }
  rewrite Hvs, bind_lift_Ok. unfold np_random_multinomial1.
  rewrite check_pvals_valid.
  2:{ eapply Forall_impl; [exact Hvz|]. intros w Hw. simpl in Hw. rewrite Hw. lra. }
  assert (Hrl : Forall (fun w => w == 0) (removelast vs)).
  { apply Forall_forall. intros w Hw. apply (proj1 (Forall_forall _ _) Hvz).
    rewrite (app_removelast_last 0 Hvne). apply elem_of_app. by left. }
  assert (Hchk : Qlt_bool (1 + 1 / 1000000000000) (np_sum (removelast vs)) = false).
  { apply Qlt_bool_false. rewrite (np_sum_all_zero _ Hrl). done. }
  rewrite Hchk.
  destruct (multinomial_trial_zeros vs 1 s Hvne Hrl) as [s' Hrun].
  rewrite (bind_run _ _ _ _ _ Hrun).
  unfold np_where. rewrite np_where_from_last_one.
  change (getitem [(0 + (length vs - 1))%nat] 0) with (Ok (length vs - 1)%nat).
  rewrite bind_lift_Ok. rewrite Hlen.
  destruct (last sorted_keys) as [k|] eqn:Hlast.
  - exists k, s'. split; [|done]. rewrite last_lookup in Hlast.
    unfold getitem. replace (length sorted_keys - 1)%nat with (pred (length sorted_keys)) by lia.
    by rewrite Hlast.
  - apply last_None in Hlast. rewrite Hlast in Hlen. by destruct vs.
Qed.

(** Weights that all have the sign of a nonzero total are normalised
    into a valid distribution and sampled without error. *)
Lemma sample_single_dict_ok (d : dict K Q) (s : RandomState) :
  dict_wf d -> d <> [] -> ~ np_sum (dict_values d) == 0 ->
  Forall (fun w => 0 <= w / np_sum (dict_values d)) (dict_values d) ->
  exists k s',
    sample_single key_le (PyDict d) s = (Ok (Key k), s') /\ k ∈ dict_keys d.
Proof.
  intros Hwf Hne Ht Hsign. unfold sample_single.
  assert (Hwf' : dict_wf (norm_dic d)) by (unfold dict_wf; by rewrite norm_dic_keys).
  destruct (sorted_distr_Permutation (norm_dic d) Hwf') as (vs & Hvs & Hperm & Hlen).
  rewrite norm_dic_values in Hperm by done.
  rewrite norm_dic_keys in * by done.
  set (t := np_sum (dict_values d)) in *.
  set (sorted_keys := sorted key_le (dict_keys d)) in *.
  assert (Hsum : np_sum vs == 1).
  { rewrite (np_sum_Permutation _ _ Hperm), np_sum_map_div. fold t. by field. }
  assert (Hnn : Forall (fun q => 0 <= q) vs).
  { rewrite Hperm. by apply Forall_fmap. }
  assert (Hrange : Forall (fun q => 0 <= q /\ q <= 1) vs).
  { apply Forall_forall. intros q Hq. split.
    - by apply (proj1 (Forall_forall _ _) Hnn).
    - rewrite <- Hsum. by apply np_sum_elem_le. }
  assert (Hvne : vs <> []).
  { intros ->. apply Permutation_nil_l in Hperm. by destruct d. }
  rewrite Hvs, bind_lift_Ok. unfold np_random_multinomial1.
  rewrite check_pvals_valid by done.
  assert (Hchk : Qlt_bool (1 + 1 / 1000000000000) (np_sum (removelast vs)) = false).
  { apply Qlt_bool_false. pose proof (np_sum_removelast_le vs Hnn).
    assert (0 <= 1 / 1000000000000) by done. lra. }
  rewrite Hchk.
  destruct (multinomial_trial_run vs 1 s 0 Hvne) as (counts & s' & i & Hrun & Hi & Hw).
  rewrite (bind_run _ _ _ _ _ Hrun).
  unfold np_where. rewrite Hw.
  change (getitem [(0 + i)%nat] 0) with (Ok i).
  rewrite bind_lift_Ok.
  rewrite Hlen in Hi. destruct (lookup_lt_is_Some_2 sorted_keys i Hi) as [k Hk].
  exists k, s'. unfold getitem. rewrite Hk. split; [done|].
  apply list_elem_of_lookup_2 in Hk. unfold sorted_keys in Hk.
  by rewrite sorted_Permutation in Hk.
Qed.
End DictSamplerFacts.

(** C1, the claim as stated fails: a [dict] whose weights are all zero
    is sampled (its largest key is returned), and so is a [dict] whose
    weights are all negative (normalising by the negative total makes them
    positive). *)
Lemma sample_single_accepts_zero_and_negative :
  (is_distribution all_zero_dict
   /\ Forall (fun w => w == 0) (weights_of all_zero_dict)
   /\ forall s, exists s',
        sample_single String.leb all_zero_dict s = (Ok (Key "b"%string), s'))
  /\ (is_distribution all_negative_dict
      /\ Exists (fun w => w < 0) (weights_of all_negative_dict)
      /\ forall s, is_ok (fst (sample_single String.leb all_negative_dict s))).
Proof.
  assert (Hwf0 : is_distribution all_zero_dict)
    by (unfold is_distribution, dict_wf; simpl;
        apply (bool_decide_unpack _); vm_compute; exact I).
  assert (Hwfn : is_distribution all_negative_dict)
    by (unfold is_distribution, dict_wf; simpl;
        apply (bool_decide_unpack _); vm_compute; exact I).
  split; (split; [assumption|]).
  - split; [by repeat constructor|]. intros s.
    destruct (sample_single_zero_dict String.leb
                [("a"%string, 0); ("b"%string, 0)] s) as (k & s' & Hrun & Hlast);
      [exact Hwf0|discriminate|by repeat constructor|].
    exists s'. injection Hlast as <-. exact Hrun.
  - split; [by apply Exists_cons_hd|]. intros s.
    destruct (sample_single_dict_ok String.leb
                [("a"%string, -(1)); ("b"%string, -(3))] s) as (k & s' & Hrun & _);
      [exact Hwfn|discriminate|discriminate|by repeat constructor|].
    exists (Key k). unfold all_negative_dict. by rewrite Hrun.
Qed.

(** A non-empty [dict] of non-negative weights with a positive total is
    sampled without error, and the sample is one of its keys. *)
Theorem sample_single_returns_key {K : Type} `{EqDecision K}
    (key_le : K -> K -> bool) (d : dict K Q) (s : RandomState) :
  dict_wf d ->
  Forall (fun w => 0 <= w) (dict_values d) ->
  0 < np_sum (dict_values d) ->
  exists k s',
    sample_single key_le (PyDict d) s = (Ok (Key k), s') /\ k ∈ dict_keys d.
Proof.
  intros Hwf Hnn Hpos. apply sample_single_dict_ok; [done| |lra|].
  - intros ->. by compute in Hpos.
  - eapply Forall_impl; [exact Hnn|]. intros w Hw. simpl in *.
    apply Qle_shift_div_l; [exact Hpos|lra].
Qed.

Lemma sample_single_returns_key_witness :
  dict_wf counts_1_3
  /\ Forall (fun w => 0 <= w) (dict_values counts_1_3)
  /\ 0 < np_sum (dict_values counts_1_3)
  /\ forall s, exists k s',
       sample_single String.leb (PyDict counts_1_3) s = (Ok (Key k), s')
       /\ k ∈ dict_keys counts_1_3.
Proof.
  assert (Hwf : dict_wf counts_1_3)
    by (unfold dict_wf; simpl; apply (bool_decide_unpack _); vm_compute; exact I).
  assert (Hnn : Forall (fun w => 0 <= w) (dict_values counts_1_3))
    by (repeat constructor; discriminate).
  assert (Hpos : 0 < np_sum (dict_values counts_1_3)) by reflexivity.
  split; [exact Hwf|]. split; [exact Hnn|]. split; [exact Hpos|].
  intros s.
  exact (sample_single_returns_key String.leb counts_1_3 s Hwf Hnn Hpos).
Defined.

(** ** The contact age sampler *)

Lemma weighted_sum_nonneg (matrix_dic : dict string ndarray)
    (weights_dic : dict string Q) (K i j : nat) :
  well_formed_mixing matrix_dic weights_dic K ->
  (i < K)%nat -> (j < K)%nat ->
  0 <= weighted_sum matrix_dic weights_dic i j.
Proof.
  intros (_ & Hw & Hsel) Hi Hj.
  induction weights_dic as [|[code w] weights_dic IH].
  - unfold weighted_sum. simpl. lra.
  - apply Forall_cons in Hw as [Hw0 Hw]. simpl in Hw0.
    assert (IH' : 0 <= weighted_sum matrix_dic weights_dic i j).
    { apply IH; [done|]. intros A (c & Hc & HA). apply Hsel. exists c.
      split; [by apply list_elem_of_further|done]. }
    unfold weighted_sum. cbn [foldr]. fold (weighted_sum matrix_dic weights_dic i j).
    destruct (dict_lookup matrix_dic code) as [A|] eqn:HA; [|done].
    destruct (Hsel A) as [_ Hnn].
    { exists code. split; [apply list_elem_of_here|done]. }
    specialize (Hnn i j Hi Hj).
    pose proof (Qmult_le_0_compat _ _ Hnn Hw0). lra.
Qed.

(** The combined matrix of well-formed inputs: [K]x[K], non-negative. *)
Lemma combine_matrices_well_formed (matrix_dic : dict string ndarray)
    (weights_dic : dict string Q) (K : nat) :
  well_formed_mixing matrix_dic weights_dic K ->
  exists M, combine_matrices matrix_dic weights_dic K = Ok M
    /\ shape M = (K, K)
    /\ forall i j, (i < K)%nat -> (j < K)%nat -> 0 <= entry M i j.
Proof.
  intros Hwf. pose proof Hwf as (Hover & _ & Hsel).
  destruct (combine_from_square matrix_dic K weights_dic (np_zeros K K))
    as (M & HM & Hsh & Hent); [by intros A [? _]%Hsel|done|done|].
  exists M. split; [done|]. split; [done|].
  intros i j Hi Hj. rewrite Hent by done. simpl.
  pose proof (weighted_sum_nonneg matrix_dic weights_dic K i j Hwf Hi Hj). lra.
Qed.

Lemma row_length (M : ndarray) (b : nat) : length (row M b) = ncols M.
Proof. unfold row. by rewrite length_map, length_seq. Qed.

Lemma row_nonneg (M : ndarray) (b : nat) :
  (forall j, (j < ncols M)%nat -> 0 <= entry M b j) ->
  Forall (fun x => 0 <= x) (row M b).
Proof.
  intros Hnn. unfold row. apply Forall_fmap, Forall_forall.
  intros j Hj%elem_of_seq. apply Hnn. lia.
Qed.

(** The loop of [sample_n_contact_ages]: when every draw succeeds with
    an age satisfying [P], it appends [n] such ages. *)
Lemma append_contact_ages_run (P : Z -> Prop) (draw : rand Z) (n : nat) :
  (forall s, exists a s', draw s = (Ok a, s') /\ P a) ->
  forall contact_ages s,
    Forall P contact_ages ->
    exists contact_ages' s',
      append_contact_ages n draw contact_ages s = (Ok contact_ages', s')
      /\ length contact_ages' = (length contact_ages + n)%nat
      /\ Forall P contact_ages'.
Proof.
  intros Hdraw. induction n as [|n IH]; intros contact_ages s Hvalid.
  - exists contact_ages, s. split; [done|]. split; [lia|done].
  - destruct (Hdraw s) as (a & s1 & Ha & Hva).
    destruct (IH (contact_ages ++ [a]) s1) as (l & s' & Hl & Hlen & Hall).
    { apply Forall_app. split; [done|]. by apply Forall_singleton. }
    exists l, s'. split; [|split; [|done]].
    + simpl. by rewrite (bind_run _ _ _ _ _ Ha).
    + rewrite Hlen, length_app. simpl. lia.
Qed.

Section ContactAges.
Variables (age : Z) (age_brackets : age_brackets_t)
  (age_by_brackets_dic : dict Z nat) (K b : nat).
Hypothesis Hbrackets : brackets_defined age_brackets K.
Hypothesis Hage : dict_lookup age_by_brackets_dic age = Some b.
Hypothesis Hb : (b < K)%nat.

(** One contact age drawn from a non-negative [K]x[K] matrix whose row
    [b] is not all zero. *)
Lemma sample_contact_age_run (M : ndarray) (s : RandomState) :
  shape M = (K, K) ->
  (forall i j, (i < K)%nat -> (j < K)%nat -> 0 <= entry M i j) ->
  ~ np_sum (row M b) == 0 ->
  exists a s',
    sample_contact_age age age_brackets age_by_brackets_dic M s = (Ok a, s')
    /\ valid_age age_brackets a.
Proof.
  intros [= Hr Hc] Hnn Hrow. unfold sample_contact_age.
  unfold dict_get. rewrite Hage, bind_lift_Ok.
  unfold get_row. rewrite decide_True by lia. rewrite bind_lift_Ok.
  destruct (sample_single_array_ok Nat.leb (row M b) s) as (i & s1 & Hrun & Hi).
  { intros Hnil. apply (f_equal length) in Hnil. rewrite row_length in Hnil.
    simpl in Hnil. lia. }
  { apply row_nonneg. intros j Hj. apply Hnn; lia. }
  { done. }
  rewrite (bind_run _ _ _ _ _ Hrun). rewrite row_length, Hc in Hi.
  destruct (Hbrackets i Hi) as (ages & Hages & Hne).
  unfold bracket_of_sample, dict_get. rewrite Hages, bind_lift_Ok.
  destruct (np_random_choice_run ages s1 Hne) as (a & Hchoice & Ha).
  exists a, (advance s1). split; [done|]. by exists i, ages.
Qed.

End ContactAges.

Lemma two_brackets_defined : brackets_defined two_brackets 2.
Proof.
  intros b Hb. destruct b as [|[|b]]; [| |lia].
  - by exists (np_arange 0 18).
  - by exists (np_arange 18 100).
Qed.

Lemma household_only_well_formed : well_formed_mixing household_only weight_H_1 2.
Proof.
  split; [by intros code Hc|]. split; [by repeat constructor|].
  intros A (code & Hc & HA). unfold weight_H_1, dict_keys in Hc. simpl in Hc.
  apply list_elem_of_singleton in Hc as ->. injection HA as <-.
  split; [done|]. intros i j Hi Hj.
  destruct i as [|[|i]]; [| |lia]; (destruct j as [|[|j]]; [| |lia]); done.
Qed.

Lemma household_only_combined :
  exists M, combine_matrices household_only weight_H_1 2 = Ok M
    /\ nrows M = 2%nat /\ row M 0 = [0; 1] /\ row M 1 = [1; 0].
Proof. eexists. split; [reflexivity|]. by vm_compute. Qed.


(** C2. In the two-bracket scenario (ages 0-17 and 18-99, contact only
    across brackets, weight set [{H: 1}]) every contact age sampled for an
    individual of age 10 lies in [[18, 99]], for every number of contacts
    and every state of the random source. *)
Theorem cross_bracket_contact_ages (n : nat) (s : RandomState) :
  exists contact_ages s',
    sample_n_contact_ages n 10 two_brackets
      (get_age_by_brackets_dic two_brackets) household_only weight_H_1 2 s
    = (Ok contact_ages, s')
    /\ length contact_ages = n
    /\ Forall (fun a => (18 <= a <= 99)%Z) contact_ages.
Proof.
  destruct household_only_combined as (M & HM & HnM & Hr0 & _).
  unfold sample_n_contact_ages. rewrite HM, bind_lift_Ok.
  apply (append_contact_ages_run (fun a => (18 <= a <= 99)%Z)); [|constructor].
  clear s. intros s. unfold sample_contact_age.
  assert (Hage : dict_get (get_age_by_brackets_dic two_brackets) 10%Z = Ok 0%nat)
    by (vm_compute; reflexivity).
  rewrite Hage, bind_lift_Ok.
  unfold get_row. rewrite decide_True by lia. rewrite Hr0, bind_lift_Ok.
  destruct (sample_single_array_last Nat.leb [0; 1] s) as [s1 Hrun];
    [discriminate|by repeat constructor|discriminate|by repeat constructor|].
  rewrite (bind_run _ _ _ _ _ Hrun).
  change (bracket_of_sample two_brackets (Index (length [0; 1] - 1)))
    with (Ok (np_arange 18 100)).
  rewrite bind_lift_Ok.
  destruct (np_random_choice_run (np_arange 18 100) s1) as (a & Hchoice & Ha);
    [discriminate|].
  exists a, (advance s1). split; [done|].
  apply elem_of_np_arange in Ha. lia.
Qed.

(** ** The contact identity resolver *)

(** C4, what the code does at the input of the claim: the pool for age
    30 is empty and age 31 of the same bracket has a candidate, yet the
    resolver raises [AttributeError] (numpy has no [choice] attribute)
    instead of returning that candidate. *)
Theorem get_n_contact_ids_by_age_raises (s : RandomState) :
  get_n_contact_ids_by_age pool_31_only [30%Z] bracket_30_31
    (get_age_by_brackets_dic bracket_30_31) s
  = (Raise AttributeError, s).
Proof. reflexivity. Qed.

(** The resolver never returns for a non-empty sequence of contact ages:
    every path through the loop body ends in a failed dictionary lookup or
    in [np.choice]. *)
Theorem get_n_contact_ids_by_age_fails (contact_ids_by_age_dic : dict Z (list nat))
    (contact_ages : list Z) (age_brackets : age_brackets_t)
    (age_by_brackets_dic : dict Z nat) (s : RandomState) :
  contact_ages <> [] ->
  exists e,
    get_n_contact_ids_by_age contact_ids_by_age_dic contact_ages age_brackets
      age_by_brackets_dic s = (Raise e, s)
    /\ (e = KeyError \/ e = AttributeError).
Proof.
  destruct contact_ages as [|contact_age contact_ages]; [done|]. intros _.
  unfold get_n_contact_ids_by_age. cbn [for_each_rand].
  unfold bind at 1. unfold bind at 1. unfold dict_get at 1, lift at 1.
  destruct (dict_lookup contact_ids_by_age_dic contact_age) as [pool|];
    [|exists KeyError; by split; [|left]].
  destruct (decide (0 < length pool)%nat);
    [exists AttributeError; by split; [|right]|].
  unfold bind at 1. unfold dict_get at 1, lift at 1.
  destruct (dict_lookup age_by_brackets_dic contact_age) as [b_contact|];
    [|exists KeyError; by split; [|left]].
  unfold bind at 1. unfold dict_get at 1, lift at 1.
  destruct (dict_lookup age_brackets b_contact) as [ages|];
    [|exists KeyError; by split; [|left]].
  unfold bind at 1. unfold lift at 1.
  destruct (for_each _ ages []) as [potential_contacts|e] eqn:Eloop.
  - exists AttributeError. by split; [|right].
  - exists e. split; [done|]. left.
    clear -Eloop. revert Eloop. generalize (@nil nat).
    induction ages as [|a ages IH]; intros acc; simpl; [done|].
    unfold dict_get. destruct (dict_lookup contact_ids_by_age_dic a); simpl.
    + apply IH.
    + by intros [= <-].
Qed.

(** With no contact age to resolve, the resolver returns the empty set
    and draws nothing. *)
Theorem get_n_contact_ids_by_age_empty (contact_ids_by_age_dic : dict Z (list nat))
    (age_brackets : age_brackets_t) (age_by_brackets_dic : dict Z nat)
    (s : RandomState) :
  get_n_contact_ids_by_age contact_ids_by_age_dic [] age_brackets
    age_by_brackets_dic s = (Ok ∅, s).
Proof. reflexivity. Qed.

Lemma get_n_contact_ids_by_age_fails_witness :
  [30%Z; 31%Z] <> []
  /\ forall s, exists e,
       get_n_contact_ids_by_age pool_31_only [30%Z; 31%Z] bracket_30_31
         (get_age_by_brackets_dic bracket_30_31) s = (Raise e, s)
       /\ (e = KeyError \/ e = AttributeError).
Proof.
  assert (Hne : [30%Z; 31%Z] <> []) by discriminate.
  split; [exact Hne|]. intros s.
  exact (get_n_contact_ids_by_age_fails pool_31_only [30%Z; 31%Z] bracket_30_31
           (get_age_by_brackets_dic bracket_30_31) s Hne).
Defined.

(** ** The age-sex generator *)

Lemma Qle_bool_false (x y : Q) : Qle_bool x y = false -> y < x.
Proof.
  intros E. apply Qnot_le_lt. intros Hle. apply Qle_bool_iff in Hle. congruence.
Qed.

(** The median of a value and two bounds is the value clamped to them. *)
Lemma pl_median_clamps (lo x hi : Q) :
  lo <= hi -> lo <= pl_median [lo; x; hi] /\ pl_median [lo; x; hi] <= hi.
Proof.
  intros Hle. unfold pl_median, sorted. cbn [foldr insert_sorted].
  destruct (Qle_bool x hi) eqn:Exh; cbn [insert_sorted].
  - destruct (Qle_bool lo x) eqn:Elx; cbn [insert_sorted].
    + apply Qle_bool_iff in Exh, Elx. simpl. lra.
    + destruct (Qle_bool lo hi) eqn:Elh; simpl; [lra|].
      apply Qle_bool_false in Elh. lra.
  - destruct (Qle_bool lo hi) eqn:Elh; simpl; [lra|].
    apply Qle_bool_false in Elh. lra.
Qed.

Lemma get_age_sex_fallback_run (min_age max_age age_mean age_std : Q)
    (s : RandomState) :
  0 <= age_std ->
  exists age sex s',
    get_age_sex_fallback min_age max_age age_mean age_std s = (Ok (age, sex), s')
    /\ (sex = 0%nat \/ sex = 1%nat)
    /\ (min_age <= max_age -> min_age <= age /\ age <= max_age).
Proof.
  intros Hstd. unfold get_age_sex_fallback, pl_randint.
  destruct (randint_run 2 s) as (sex & Hsex & Hlt); [lia|].
  rewrite (bind_run _ _ _ _ _ Hsex). unfold pl_normal.
  rewrite (proj2 (Qlt_bool_false age_std 0) Hstd).
  eexists _, sex, _. split; [reflexivity|]. split; [lia|].
  apply pl_median_clamps.
Qed.

(** With a negative [age_std] the fallback itself fails: [pl.normal]
    raises [ValueError] once the sex is drawn. *)
Lemma get_age_sex_fallback_negative_std (min_age max_age age_mean age_std : Q)
    (s : RandomState) :
  age_std < 0 ->
  get_age_sex_fallback min_age max_age age_mean age_std s
  = (Raise ValueError, advance s).
Proof.
  intros Hstd. unfold get_age_sex_fallback, pl_randint.
  destruct (randint_run 2 s) as (sex & Hsex & Hlt); [lia|].
  rewrite (bind_run _ _ _ _ _ Hsex). unfold pl_normal.
  by rewrite (proj2 (Qlt_bool_iff age_std 0) Hstd).
Qed.

(** C5, the claim as stated fails: with no age distribution the primary
    path fails, and with a negative [age_std] so does the fallback; the
    [ValueError] of [pl.normal] reaches the caller. *)
Lemma get_age_sex_raises_on_negative_std :
  -(20) < 0
  /\ forall s,
       fails (fst (get_age_sex_primary Nat.leb no_gender_fractions no_distr
                     two_brackets s))
       /\ get_age_sex Nat.leb no_gender_fractions no_distr
            (get_age_by_brackets_dic two_brackets) two_brackets 0 99 40 (-(20)) s
          = (Raise ValueError, advance s).
Proof.
  split; [reflexivity|]. intros s. split; [by exists IndexError|].
  unfold get_age_sex, try_except.
  change (get_age_sex_primary Nat.leb no_gender_fractions no_distr two_brackets s)
    with (@Raise (Q * nat) IndexError, s).
  by apply get_age_sex_fallback_negative_std.
Qed.

(** C5, amended.  When [age_std] is not negative, [get_age_sex] returns
    an (age, sex) pair whatever the distributions it is given: a failure of
    the primary path is caught, and the pair then comes from the fallback,
    with sex 0 or 1 and, when [min_age <= max_age], the age within
    [[min_age, max_age]].  When [age_std] is negative and the primary path
    fails, the [ValueError] of the fallback is raised. *)
Theorem get_age_sex_never_raises {K : Type} `{EqDecision K}
    (key_le : K -> K -> bool)
    (gender_fraction_by_age : dict string (dict nat Q))
    (age_bracket_distr : dict K Q) (age_by_brackets : dict Z nat)
    (age_brackets : age_brackets_t) (min_age max_age age_mean age_std : Q)
    (s : RandomState) :
  (0 <= age_std ->
   exists age sex s',
     get_age_sex key_le gender_fraction_by_age age_bracket_distr age_by_brackets
       age_brackets min_age max_age age_mean age_std s = (Ok (age, sex), s')
     /\ (fails (fst (get_age_sex_primary key_le gender_fraction_by_age
                       age_bracket_distr age_brackets s)) ->
         (sex = 0%nat \/ sex = 1%nat)
         /\ (min_age <= max_age -> min_age <= age /\ age <= max_age)))
  /\ (age_std < 0 ->
      fails (fst (get_age_sex_primary key_le gender_fraction_by_age
                    age_bracket_distr age_brackets s)) ->
      exists s',
        get_age_sex key_le gender_fraction_by_age age_bracket_distr
          age_by_brackets age_brackets min_age max_age age_mean age_std s
        = (Raise ValueError, s')).
Proof.
  unfold get_age_sex, try_except.
  destruct (get_age_sex_primary _ _ _ _ s) as [[[age sex]|e] s1] eqn:Eprimary.
  - split.
    + intros _. exists age, sex, s1. split; [done|]. by intros [e He].
    + by intros _ [e He].
  - split.
    + intros Hstd.
      destruct (get_age_sex_fallback_run min_age max_age age_mean age_std s1 Hstd)
        as (age & sex & s' & Hrun & Hsex & Hage).
      exists age, sex, s'. split; [done|]. intros _. by split.
    + intros Hstd _.
      rewrite (get_age_sex_fallback_negative_std _ _ _ _ s1 Hstd).
      by exists (advance s1).
Qed.

Lemma get_age_sex_never_raises_witness :
  0 <= 20
  /\ 0 <= 99
  /\ forall s,
       fails (fst (get_age_sex_primary Nat.leb no_gender_fractions no_distr
                     two_brackets s))
       /\ exists age sex s',
            get_age_sex Nat.leb no_gender_fractions no_distr
              (get_age_by_brackets_dic two_brackets) two_brackets 0 99 40 20 s
            = (Ok (age, sex), s')
            /\ (sex = 0%nat \/ sex = 1%nat) /\ 0 <= age /\ age <= 99.
Proof.
  assert (Hstd : 0 <= 20) by discriminate.
  assert (Hle : 0 <= 99) by discriminate.
  split; [exact Hstd|]. split; [exact Hle|]. intros s.
  assert (Hfails : fails (fst (get_age_sex_primary Nat.leb no_gender_fractions
                                 no_distr two_brackets s)))
    by (by exists IndexError).
  split; [exact Hfails|].
  destruct (proj1 (get_age_sex_never_raises Nat.leb no_gender_fractions no_distr
                     (get_age_by_brackets_dic two_brackets) two_brackets
                     0 99 40 20 s) Hstd)
    as (age & sex & s' & Hrun & Hfallback).
  exists age, sex, s'. split; [exact Hrun|].
  destruct (Hfallback Hfails) as [Hsex Hage]. split; [exact Hsex|].
  exact (Hage Hle).
Defined.

(** ** More on the age-bracket resolver *)

Lemma get_age_by_brackets_dic_snoc (age_brackets : age_brackets_t) (b : nat)
    (ages : list Z) :
  get_age_by_brackets_dic (age_brackets ++ [(b, ages)])
  = foldl (fun d a => dict_set d a b) (get_age_by_brackets_dic age_brackets) ages.
Proof. unfold get_age_by_brackets_dic. by rewrite foldl_app. Qed.

(** The bracket an age is filed under is the last one, in the order of
    the bracket definitions, that holds the age. *)
Lemma age_by_brackets_last (age_brackets : age_brackets_t) (a : Z) (b : nat) :
  dict_lookup (get_age_by_brackets_dic age_brackets) a = Some b
  <-> exists i ages,
        age_brackets !! i = Some (b, ages) /\ a ∈ ages
        /\ forall j b' ages', (i < j)%nat ->
             age_brackets !! j = Some (b', ages') -> a ∉ ages'.
Proof.
  induction age_brackets as [|[b0 ages0] l IH] using rev_ind.
  - split; [done|]. by intros (i & ages & Hi & _).
  - rewrite get_age_by_brackets_dic_snoc, file_bracket_lookup.
    destruct (decide (a ∈ ages0)) as [Ha0|Ha0].
    + split.
      * intros [= <-]. exists (length l), ages0. split; [|split; [done|]].
        -- apply lookup_snoc_Some. by right.
        -- intros j b' ages' Hj Hlk. apply lookup_lt_Some in Hlk.
           rewrite length_app in Hlk. simpl in Hlk. lia.
      * intros (i & ages & Hi & Ha & Hlast).
        apply lookup_snoc_Some in Hi as [[Hil Hi]|[_ Hi]];
          [|by injection Hi as -> _].
        exfalso. apply (Hlast (length l) b0 ages0 Hil); [|done].
        apply lookup_snoc_Some. by right.
    + rewrite IH. split.
      * intros (i & ages & Hi & Ha & Hlast). exists i, ages.
        split; [by apply lookup_app_l_Some|]. split; [done|].
        intros j b' ages' Hj Hlk.
        apply lookup_snoc_Some in Hlk as [[_ Hlk]|[_ Hlk]].
        -- by apply (Hlast j b' ages').
        -- by injection Hlk as _ <-.
      * intros (i & ages & Hi & Ha & Hlast).
        apply lookup_snoc_Some in Hi as [[Hil Hi]|[_ Hi]].
        -- exists i, ages. split; [done|]. split; [done|].
           intros j b' ages' Hj Hlk. apply (Hlast j b' ages' Hj).
           by apply lookup_app_l_Some.
        -- exfalso. by injection Hi as _ <-.
Qed.

(** The dictionary [get_age_by_brackets_dic] builds maps an age to a
    bracket exactly when that bracket is the last one, in the order of the
    bracket definitions, whose ages include it; looking up an age that no
    bracket holds raises [KeyError]. *)
Theorem age_to_bracket_lookup (age_brackets : age_brackets_t) (a : Z) :
  (forall b,
     dict_get (get_age_by_brackets_dic age_brackets) a = Ok b
     <-> exists i ages,
           age_brackets !! i = Some (b, ages) /\ a ∈ ages
           /\ forall j b' ages', (i < j)%nat ->
                age_brackets !! j = Some (b', ages') -> a ∉ ages')
  /\ (dict_get (get_age_by_brackets_dic age_brackets) a = Raise KeyError
      <-> forall b ages, (b, ages) ∈ age_brackets -> a ∉ ages).
Proof.
  split.
  - intros b. rewrite dict_get_Ok. apply age_by_brackets_last.
  - unfold dict_get.
    destruct (dict_lookup (get_age_by_brackets_dic age_brackets) a) as [b|] eqn:E.
    + split; [done|]. intros Hnone. exfalso.
      apply age_by_brackets_last in E as (i & ages & Hi & Ha & _).
      apply (Hnone b ages); [|done]. by apply list_elem_of_lookup_2 in Hi.
    + split; [|done]. intros _ b ages Hin Ha.
      (* some bracket holds [a]: then a last one does, and the lookup succeeds *)
      assert (Hex : exists b', dict_lookup (get_age_by_brackets_dic age_brackets) a
                               = Some b'); [|by destruct Hex as [b' Hb']; congruence].
      clear E. induction age_brackets as [|[b0 ages0] l IH] using rev_ind.
      * by apply elem_of_nil in Hin.
      * rewrite get_age_by_brackets_dic_snoc, file_bracket_lookup.
        destruct (decide (a ∈ ages0)); [by eexists|].
        apply IH. apply elem_of_app in Hin as [Hin|Hin]; [done|].
        apply list_elem_of_singleton in Hin. by injection Hin as -> ->.
Qed.

(** ** Bracket definitions read from a file *)

(** The loop of [get_age_brackets_from_df] over rows of at least two
    cells, numbered from [k], appends one bracket per row. *)
Lemma brackets_from_rows (rows : list (list Z)) (k : nat) (dic : age_brackets_t) :
  Forall (fun row => (2 <= length row)%nat) rows ->
  (forall key, key ∈ dict_keys dic -> (key < k)%nat) ->
  for_each
    (fun dic '(index, row) =>
       let? age_min := getitem row 0 in
       let? age_max := getitem row 1 in
       Ok (dict_set dic index (np_arange age_min (age_max + 1))))
    (zip (seq k (length rows)) rows) dic
  = Ok (dic ++ zip (seq k (length rows))
                   (map (fun row => np_arange (nth 0 row 0%Z) (nth 1 row 0%Z + 1)) rows)).
Proof.
  revert k dic. induction rows as [|row rows IH]; intros k dic Hrows Hkeys.
  - simpl. by rewrite app_nil_r.
  - apply Forall_cons in Hrows as [Hrow Hrows].
    destruct row as [|lo [|hi rest]]; [simpl in Hrow; lia..|].
    cbn [length seq zip zip_with for_each getitem lookup list_lookup bind_result].
    rewrite dict_set_fresh.
    2:{ intros Hin%Hkeys. lia. }
    rewrite IH; [|done|].
    + simpl. by rewrite <- app_assoc.
    + intros key. unfold dict_keys. rewrite fmap_app. simpl.
      intros [Hin|Hin%list_elem_of_singleton]%elem_of_app; [|lia].
      apply Hkeys in Hin. lia.
Qed.

Lemma brackets_from_short_row (l : list (nat * list Z)) (dic : age_brackets_t) :
  Exists (fun '(_, row) => (length row < 2)%nat) l ->
  for_each
    (fun dic '(index, row) =>
       let? age_min := getitem row 0 in
       let? age_max := getitem row 1 in
       Ok (dict_set dic index (np_arange age_min (age_max + 1))))
    l dic
  = Raise IndexError.
Proof.
  revert dic. induction l as [|[index row] l IH]; intros dic Hex.
  - by apply Exists_nil in Hex.
  - destruct row as [|lo [|hi rest]]; [done..|].
    apply Exists_cons in Hex as [Hshort|Hex]; [simpl in Hshort; lia|].
    simpl. by apply IH.
Qed.

Lemma enumerate_lookup {A} (l : list A) (i : nat) (x : A) :
  enumerate l !! i = Some (i, x) <-> l !! i = Some x.
Proof.
  unfold enumerate. rewrite lookup_zip_with_Some. split.
  - intros (j & y & [= <- <-] & Hj & Hy). apply lookup_seq in Hj as [-> _]. done.
  - intros Hx. exists i, x. split; [done|]. split; [|done].
    apply lookup_seq. split; [done|]. by apply lookup_lt_Some in Hx.
Qed.

(** The data frame [pd.read_csv] returns is a table: it has at least one
    row and every row has the width of the table.  For a table of integer
    cells with two columns or more, [get_age_brackets_from_df] returns one
    bracket per row, keyed by the row number and holding the ages from the
    first cell to the second, both included; for a table of one column it
    raises [IndexError]. *)
Theorem get_age_brackets_from_df_rows (ab_df : list (list Z)) (width : nat) :
  ab_df <> [] ->
  Forall (fun row => length row = width) ab_df ->
  ((2 <= width)%nat ->
     exists age_brackets,
       get_age_brackets_from_df ab_df = Ok age_brackets
       /\ dict_keys age_brackets = seq 0 (length ab_df)
       /\ forall index age_min age_max rest,
            ab_df !! index = Some (age_min :: age_max :: rest) ->
            dict_get age_brackets index = Ok (np_arange age_min (age_max + 1)))
  /\ ((width < 2)%nat ->
      get_age_brackets_from_df ab_df = Raise IndexError).
Proof.
  intros Hne Hwidth. split.
  - intros Hw.
    assert (Hrows : Forall (fun row => (2 <= length row)%nat) ab_df).
    { eapply Forall_impl; [exact Hwidth|]. intros row Hrow. simpl in Hrow. lia. }
    unfold get_age_brackets_from_df, enumerate.
    rewrite (brackets_from_rows ab_df 0 [] Hrows); [|by intros key ?%elem_of_nil].
    eexists. split; [reflexivity|]. rewrite app_nil_l.
    set (bracket := fun row : list Z => np_arange (nth 0 row 0%Z) (nth 1 row 0%Z + 1)).
    assert (Hkeys : dict_keys (zip (seq 0 (length ab_df)) (map bracket ab_df))
                    = seq 0 (length ab_df)).
    { unfold dict_keys. apply fst_zip. by rewrite length_seq, length_map. }
    split; [exact Hkeys|].
    intros index age_min age_max rest Hrow. apply dict_get_Ok.
    apply dict_lookup_elem_wf.
    + unfold dict_wf. rewrite Hkeys. apply NoDup_seq.
    + apply (list_elem_of_lookup_2 _ index). apply lookup_zip_with_Some.
      exists index, (bracket (age_min :: age_max :: rest)).
      split; [done|]. split.
      * apply lookup_seq. split; [done|]. by apply lookup_lt_Some in Hrow.
      * by rewrite list_lookup_fmap, Hrow.
  - intros Hw. apply brackets_from_short_row.
    destruct ab_df as [|row ab_df]; [done|].
    apply Forall_cons in Hwidth as [Hrow _].
    unfold enumerate. cbn [length seq zip zip_with].
    apply Exists_cons_hd. lia.
Qed.

(** Brackets read from rows and turned into the age-to-bracket
    dictionary: an age within the range of row [index], and of no later
    row, is mapped to [index]. *)
Theorem age_brackets_from_df_round_trip (ab_df : list (list Z))
    (age_brackets : age_brackets_t) (index : nat) (age_min age_max : Z)
    (rest : list Z) (a : Z) :
  get_age_brackets_from_df ab_df = Ok age_brackets ->
  ab_df !! index = Some (age_min :: age_max :: rest) ->
  (age_min <= a <= age_max)%Z ->
  (forall j lo hi rest', (index < j)%nat ->
     ab_df !! j = Some (lo :: hi :: rest') -> ~ (lo <= a <= hi)%Z) ->
  dict_get (get_age_by_brackets_dic age_brackets) a = Ok index.
Proof.
  intros Hdf Hrow Ha Hlater.
  assert (Hrows : Forall (fun row => (2 <= length row)%nat) ab_df).
  { apply Forall_forall. intros row Hin.
    destruct (decide (2 <= length row)%nat) as [|Hshort]; [done|]. exfalso.
    unfold get_age_brackets_from_df in Hdf.
    rewrite brackets_from_short_row in Hdf; [done|].
    apply list_elem_of_lookup in Hin as [i Hi].
    apply Exists_exists. exists (i, row). split; [|simpl; lia].
    apply (list_elem_of_lookup_2 _ i). by apply enumerate_lookup. }
  unfold get_age_brackets_from_df, enumerate in Hdf.
  rewrite (brackets_from_rows ab_df 0 [] Hrows) in Hdf; [|by intros key ?%elem_of_nil].
  injection Hdf as <-. cbn [app].
  set (bracket := fun row : list Z => np_arange (nth 0 row 0%Z) (nth 1 row 0%Z + 1)).
  assert (Hlk : forall j b ages,
            zip (seq 0 (length ab_df)) (map bracket ab_df) !! j = Some (b, ages)
            <-> b = j /\ exists row, ab_df !! j = Some row /\ ages = bracket row).
  { intros j b ages. rewrite lookup_zip_with_Some. split.
    - intros (x & y & [= <- <-] & Hx & Hy). apply lookup_seq in Hx as [-> _].
      split; [done|]. rewrite list_lookup_fmap in Hy.
      destruct (ab_df !! j) as [row|]; [|done]. injection Hy as <-. by exists row.
    - intros (-> & row & Hj & ->). exists j, (bracket row). split; [done|]. split.
      + apply lookup_seq. split; [done|]. by apply lookup_lt_Some in Hj.
      + by rewrite list_lookup_fmap, Hj. }
  apply dict_get_Ok, age_by_brackets_last.
  exists index, (bracket (age_min :: age_max :: rest)). split; [|split].
  - apply Hlk. split; [done|]. by eexists.
  - apply elem_of_np_arange. simpl. lia.
  - intros j b' ages' Hj Hj'. apply Hlk in Hj' as (-> & row & Hrowj & ->).
    assert (Hlen : (2 <= length row)%nat).
    { apply (proj1 (Forall_forall _ _) Hrows). by apply list_elem_of_lookup_2 in Hrowj. }
    destruct row as [|lo [|hi rest']]; [simpl in Hlen; lia..|].
    intros Hin. apply elem_of_np_arange in Hin. simpl in Hin.
    apply (Hlater j lo hi rest' Hj Hrowj). lia.
Qed.

Lemma age_brackets_from_df_round_trip_witness :
  exists age_brackets,
    get_age_brackets_from_df three_rows = Ok age_brackets
    /\ three_rows !! 1%nat = Some [5; 17]%Z
    /\ (5 <= 9 <= 17)%Z
    /\ dict_get (get_age_by_brackets_dic age_brackets) 9%Z = Ok 1%nat.
Proof.
  eexists. assert (Hdf : get_age_brackets_from_df three_rows = Ok _) by reflexivity.
  assert (Hrow : three_rows !! 1%nat = Some [5; 17]%Z) by reflexivity.
  assert (Ha : (5 <= 9 <= 17)%Z) by lia.
  split; [exact Hdf|]. split; [exact Hrow|]. split; [exact Ha|].
  apply (age_brackets_from_df_round_trip three_rows _ 1 5 17 [] 9 Hdf Hrow Ha).
  intros j lo hi rest' Hj Hlk.
  destruct j as [|[|[|j]]]; [lia|lia| |done].
  injection Hlk as <- <- <-. lia.
Defined.

Lemma get_age_brackets_from_df_rows_witness :
  three_rows <> []
  /\ Forall (fun row => length row = 2%nat) three_rows
  /\ exists age_brackets,
       get_age_brackets_from_df three_rows = Ok age_brackets
       /\ dict_keys age_brackets = seq 0 (length three_rows)
       /\ forall index age_min age_max rest,
            three_rows !! index = Some (age_min :: age_max :: rest) ->
            dict_get age_brackets index = Ok (np_arange age_min (age_max + 1)).
Proof.
  assert (Hne : three_rows <> []) by discriminate.
  assert (Hrows : Forall (fun row => length row = 2%nat) three_rows)
    by (repeat constructor).
  split; [exact Hne|]. split; [exact Hrows|].
  exact (proj1 (get_age_brackets_from_df_rows three_rows 2 Hne Hrows) (le_n 2)).
Defined.

(** ** The population pool *)

Lemma dict_lookup_setdefault {K V} `{EqDecision K} (d : dict K V) (k k' : K) (v : V) :
  dict_lookup (dict_setdefault d k v) k'
  = match dict_lookup d k' with
    | Some v' => Some v'
    | None => if decide (k' = k) then Some v else None
    end.
Proof.
  unfold dict_setdefault. destruct (dict_lookup d k) as [v0|] eqn:Ek.
  - destruct (dict_lookup d k') as [v'|] eqn:Ek'; [done|].
    destruct (decide (k' = k)) as [->|]; [congruence|done].
  - destruct (decide (k' = k)) as [->|Hne].
    + by rewrite dict_lookup_set_eq, Ek.
    + rewrite dict_lookup_set_ne by done. by destruct (dict_lookup d k').
Qed.

Lemma ids_of_age_cons (i : nat) (age : Z) (l : dict nat Z) (a : Z) :
  ids_of_age ((i, age) :: l) a
  = if decide (age = a) then i :: ids_of_age l a else ids_of_age l a.
Proof. unfold ids_of_age. simpl. by destruct (decide (age = a)). Qed.

(** The loop of [get_ids_by_age_dic] never raises; it appends every
    identifier to the pool of its age and touches no other pool. *)
Lemma ids_by_age_loop (l : dict nat Z) (pools : dict Z (list nat)) :
  exists pools',
    for_each
      (fun ids_by_age_dic '(i, age) =>
         let ids_by_age_dic := dict_setdefault ids_by_age_dic age [] in
         let? ids := dict_get ids_by_age_dic age in
         Ok (dict_set ids_by_age_dic age (ids ++ [i])))
      l pools = Ok pools'
    /\ forall a,
         dict_lookup pools' a
         = match dict_lookup pools a, ids_of_age l a with
           | None, [] => None
           | o, ids => Some (default [] o ++ ids)
           end.
Proof.
  revert pools. induction l as [|[i age] l IH]; intros pools.
  - exists pools. split; [done|]. intros a. simpl.
    destruct (dict_lookup pools a); [|done]. by rewrite app_nil_r.
  - cbn [for_each].
    set (pools0 := dict_setdefault pools age []).
    assert (Hget : exists ids, dict_lookup pools0 age = Some ids
                     /\ ids = default [] (dict_lookup pools age)).
    { unfold pools0. rewrite dict_lookup_setdefault.
      destruct (dict_lookup pools age); [by eexists|].
      rewrite decide_True by done. by eexists. }
    destruct Hget as (ids & Hids & Hdef).
    unfold dict_get. rewrite Hids. cbn [bind_result].
    destruct (IH (dict_set pools0 age (ids ++ [i]))) as (pools' & Hrun & Hlk).
    exists pools'. split; [exact Hrun|]. intros a. rewrite Hlk.
    rewrite ids_of_age_cons.
    destruct (decide (age = a)) as [->|Hne].
    + rewrite dict_lookup_set_eq, Hdef. simpl. rewrite <- app_assoc. simpl.
      by destruct (dict_lookup pools a).
    + rewrite dict_lookup_set_ne by done.
      unfold pools0. rewrite dict_lookup_setdefault.
      destruct (dict_lookup pools a); [done|]. by rewrite decide_False.
Qed.

Lemma elem_of_ids_of_age (age_by_id_dic : dict nat Z) (a : Z) (i : nat) :
  i ∈ ids_of_age age_by_id_dic a <-> (i, a) ∈ age_by_id_dic.
Proof.
  unfold ids_of_age. rewrite list_elem_of_omap. split.
  - intros ([i' a'] & Hin & Hf). destruct (decide (a' = a)) as [->|]; [|done].
    by injection Hf as ->.
  - intros Hin. exists (i, a). split; [done|]. by rewrite decide_True.
Qed.

Lemma get_ids_by_age_dic_pools (age_by_id_dic : dict nat Z) :
  exists ids_by_age_dic,
    get_ids_by_age_dic age_by_id_dic = Ok ids_by_age_dic
    /\ forall a, dict_lookup ids_by_age_dic a
                 = match ids_of_age age_by_id_dic a with
                   | [] => None
                   | ids => Some ids
                   end.
Proof.
  destruct (ids_by_age_loop age_by_id_dic []) as (pools & Hrun & Hlk).
  exists pools. split; [exact Hrun|]. intros a. rewrite Hlk. simpl.
  by destruct (ids_of_age age_by_id_dic a).
Qed.

(** [get_ids_by_age_dic] never raises.  Its pools are the inverse of the
    age dictionary: an identifier is in the pool of an age exactly when it
    is an item of the dictionary with that age; no pool is empty, so an age
    nobody has is not a key. *)
Theorem get_ids_by_age_dic_inverse (age_by_id_dic : dict nat Z) :
  exists ids_by_age_dic,
    get_ids_by_age_dic age_by_id_dic = Ok ids_by_age_dic
    /\ (forall i a, (i, a) ∈ age_by_id_dic <->
          exists ids, dict_lookup ids_by_age_dic a = Some ids /\ i ∈ ids)
    /\ (forall a ids, dict_lookup ids_by_age_dic a = Some ids -> ids <> [])
    /\ (forall a, a ∈ dict_keys ids_by_age_dic <-> a ∈ dict_values age_by_id_dic).
Proof.
  destruct (get_ids_by_age_dic_pools age_by_id_dic) as (pools & Hrun & Hpool).
  exists pools. split; [exact Hrun|]. split; [|split].
  - intros i a. rewrite <- elem_of_ids_of_age, Hpool.
    destruct (ids_of_age age_by_id_dic a) as [|i0 ids].
    + split; [by intros ?%elem_of_nil|by intros (ids & ? & _)].
    + split; [by eexists|]. by intros (ids' & [= <-] & Hi).
  - intros a ids. rewrite Hpool.
    destruct (ids_of_age age_by_id_dic a); [done|]. by intros [= <-].
  - intros a. rewrite <- dict_lookup_is_Some, Hpool. unfold dict_values.
    rewrite list_elem_of_fmap.
    destruct (ids_of_age age_by_id_dic a) as [|i ids] eqn:E.
    + split; [by intros [? ?]|]. intros ([i a'] & Ha & Hin). exfalso.
      simpl in Ha. subst a'.
      apply elem_of_ids_of_age in Hin. rewrite E in Hin. by apply elem_of_nil in Hin.
    + split; [|by eexists]. intros _. exists (i, a). split; [done|].
      apply elem_of_ids_of_age. rewrite E. apply list_elem_of_here.
Qed.

(** On pools built by [get_ids_by_age_dic] the resolver never reaches its
    broadening branch: a contact age that nobody has is not a key of the
    pools, so the lookup raises [KeyError]; an age that somebody has ends
    in the call of [np.choice], which raises [AttributeError]. *)
Theorem get_n_contact_ids_by_age_on_built_pools (age_by_id_dic : dict nat Z)
    (ids_by_age_dic : dict Z (list nat)) (contact_age : Z) (contact_ages : list Z)
    (age_brackets : age_brackets_t) (age_by_brackets_dic : dict Z nat)
    (s : RandomState) :
  get_ids_by_age_dic age_by_id_dic = Ok ids_by_age_dic ->
  get_n_contact_ids_by_age ids_by_age_dic (contact_age :: contact_ages)
    age_brackets age_by_brackets_dic s
  = (Raise (if decide (contact_age ∈ dict_values age_by_id_dic)
            then AttributeError else KeyError), s).
Proof.
  intros Hbuilt.
  destruct (get_ids_by_age_dic_pools age_by_id_dic) as (pools & Hrun & Hpool).
  rewrite Hrun in Hbuilt. injection Hbuilt as <-.
  unfold get_n_contact_ids_by_age. cbn [for_each_rand].
  unfold bind at 1. unfold bind at 1. unfold dict_get at 1, lift at 1.
  rewrite Hpool.
  destruct (ids_of_age age_by_id_dic contact_age) as [|i ids] eqn:E.
  - rewrite decide_False; [done|]. unfold dict_values.
    intros ([i a] & Ha & Hin)%list_elem_of_fmap. simpl in Ha. subst a.
    apply elem_of_ids_of_age in Hin. rewrite E in Hin. by apply elem_of_nil in Hin.
  - rewrite (decide_True (P := (0 < length (i :: ids))%nat)) by (simpl; lia).
    rewrite decide_True; [done|]. unfold dict_values.
    apply list_elem_of_fmap. exists (i, contact_age). split; [done|].
    apply elem_of_ids_of_age. rewrite E. apply list_elem_of_here.
Qed.

Lemma get_n_contact_ids_by_age_on_built_pools_witness :
  exists ids_by_age_dic,
    get_ids_by_age_dic three_people = Ok ids_by_age_dic
    /\ forall s,
         get_n_contact_ids_by_age ids_by_age_dic [40%Z; 31%Z] two_brackets
           (get_age_by_brackets_dic two_brackets) s
         = (Raise KeyError, s).
Proof.
  eexists. assert (Hbuilt : get_ids_by_age_dic three_people = Ok _) by reflexivity.
  split; [exact Hbuilt|]. intros s.
  exact (get_n_contact_ids_by_age_on_built_pools three_people _ 40 [31%Z]
           two_brackets (get_age_by_brackets_dic two_brackets) s Hbuilt).
Defined.

(** ** Mortality rates *)

Lemma for_each_snoc {A S} (body : S -> A -> result S) (l : list A) (x : A) (s : S) :
  for_each body (l ++ [x]) s = let? s' := for_each body l s in body s' x.
Proof.
  revert s. induction l as [|y l IH]; intros s; simpl.
  - by destruct (body s x).
  - destruct (body s y); [apply IH|done].
Qed.

(** Filing the ages of one bracket under a value [v]. *)
Lemma fill_ages_lookup {V} (v : V) (ages : list Z) (d : dict Z V) (a : Z) :
  dict_lookup (foldl (fun d a => dict_set d a v) d ages) a
  = if decide (a ∈ ages) then Some v else dict_lookup d a.
Proof.
  revert d. induction ages as [|a0 ages IH]; intros d; cbn [foldl].
  - destruct (decide (a ∈ [])) as [Hin|_]; [by apply elem_of_nil in Hin|done].
  - rewrite IH. destruct (decide (a ∈ ages)) as [Hin|Hnin].
    + destruct (decide (a ∈ a0 :: ages)) as [_|Hn]; [done|].
      exfalso. by apply Hn, list_elem_of_further.
    + destruct (decide (a = a0)) as [->|Hne].
      * destruct (decide (a0 ∈ a0 :: ages)) as [_|Hn];
          [apply dict_lookup_set_eq|].
        exfalso. apply Hn, list_elem_of_here.
      * destruct (decide (a ∈ a0 :: ages)) as [[?|?]%elem_of_cons|_]; [done..|].
        by apply dict_lookup_set_ne.
Qed.

(** [get_mortality_rates_by_age] succeeds when every bracket with a rate
    has its ages; the rate of an age is then the rate of the last bracket,
    in the order of the rate dictionary, that holds the age, and
    [calc_death] raises [KeyError] for an age of no rated bracket.  A rate
    for a bracket without ages makes the function raise [KeyError]. *)
Theorem get_mortality_rates_by_age_lookup
    (mortality_rate_by_age_bracket : dict nat Q)
    (mortality_age_brackets : age_brackets_t) :
  ((forall b, b ∈ dict_keys mortality_rate_by_age_bracket ->
              b ∈ dict_keys mortality_age_brackets) ->
     exists mortality_rates,
       get_mortality_rates_by_age mortality_rate_by_age_bracket
         mortality_age_brackets = Ok mortality_rates
       /\ forall a rate,
            calc_death a mortality_rates = Ok rate
            <-> exists i b ages,
                  mortality_rate_by_age_bracket !! i = Some (b, rate)
                  /\ dict_lookup mortality_age_brackets b = Some ages
                  /\ a ∈ ages
                  /\ forall j b' rate' ages', (i < j)%nat ->
                       mortality_rate_by_age_bracket !! j = Some (b', rate') ->
                       dict_lookup mortality_age_brackets b' = Some ages' ->
                       a ∉ ages')
  /\ ((exists b, b ∈ dict_keys mortality_rate_by_age_bracket
                 /\ b ∉ dict_keys mortality_age_brackets) ->
      get_mortality_rates_by_age mortality_rate_by_age_bracket
        mortality_age_brackets = Raise KeyError).
Proof.
  unfold get_mortality_rates_by_age, calc_death.
  set (body := fun (mortality_rates : dict Z Q) '(b, rate) =>
                 let? ages := dict_get mortality_age_brackets b in
                 Ok (foldl (fun d a => dict_set d a rate) mortality_rates ages)).
  split.
  - induction mortality_rate_by_age_bracket as [|[b0 r0] l IH] using rev_ind;
      intros Hkeys.
    + exists []. split; [done|]. intros a rate. split; [done|].
      by intros (i & b & ages & Hi & _).
    + destruct IH as (m & Hm & Hlk).
      { intros b Hb. apply Hkeys. unfold dict_keys. rewrite fmap_app.
        apply elem_of_app. by left. }
      destruct (proj2 (dict_lookup_is_Some mortality_age_brackets b0)) as [ages0 Hages0].
      { apply Hkeys. unfold dict_keys. rewrite fmap_app. apply elem_of_app.
        right. apply list_elem_of_here. }
      rewrite for_each_snoc, Hm. cbn [bind_result body]. unfold dict_get at 1.
      rewrite Hages0. cbn [bind_result].
      eexists. split; [reflexivity|]. intros a rate.
      rewrite dict_get_Ok, fill_ages_lookup.
      destruct (decide (a ∈ ages0)) as [Ha0|Ha0].
      * split.
        -- intros [= <-]. exists (length l), b0, ages0.
           split; [apply lookup_snoc_Some; by right|]. split; [done|]. split; [done|].
           intros j b' rate' ages' Hj Hlkj. apply lookup_lt_Some in Hlkj.
           rewrite length_app in Hlkj. simpl in Hlkj. lia.
        -- intros (i & b & ages & Hi & Hb & Ha & Hlast).
           apply lookup_snoc_Some in Hi as [[Hil Hi]|[_ Hi]];
             [|by injection Hi as _ ->].
           exfalso. apply (Hlast (length l) b0 r0 ages0 Hil); [|done..].
           apply lookup_snoc_Some. by right.
      * rewrite <- dict_get_Ok, Hlk. split.
        -- intros (i & b & ages & Hi & Hb & Ha & Hlast). exists i, b, ages.
           split; [by apply lookup_app_l_Some|]. split; [done|]. split; [done|].
           intros j b' rate' ages' Hj Hlkj Hb'.
           apply lookup_snoc_Some in Hlkj as [[_ Hlkj]|[_ Hlkj]].
           ++ by apply (Hlast j b' rate' ages').
           ++ injection Hlkj as <- <-. by assert (ages' = ages0) as -> by congruence.
        -- intros (i & b & ages & Hi & Hb & Ha & Hlast).
           apply lookup_snoc_Some in Hi as [[Hil Hi]|[_ Hi]].
           ++ exists i, b, ages. split; [done|]. split; [done|]. split; [done|].
              intros j b' rate' ages' Hj Hlkj. apply (Hlast j b' rate' ages' Hj).
              by apply lookup_app_l_Some.
           ++ exfalso. injection Hi as <- <-.
              by assert (ages = ages0) as -> by congruence.
  - intros (b & Hb & Hmissing). generalize (@nil (Z * Q)).
    induction mortality_rate_by_age_bracket as [|[b0 r0] l IH]; intros m.
    + by apply elem_of_nil in Hb.
    + cbn [for_each body]. unfold dict_get at 1.
      destruct (dict_lookup mortality_age_brackets b0) as [ages0|] eqn:E0; [|done].
      cbn [bind_result]. apply IH.
      unfold dict_keys in Hb. simpl in Hb.
      apply elem_of_cons in Hb as [->|Hb]; [|done].
      exfalso. apply Hmissing, dict_lookup_is_Some. by eexists.
Qed.

Lemma get_mortality_rates_by_age_lookup_witness :
  (forall b, b ∈ dict_keys two_rates -> b ∈ dict_keys two_brackets)
  /\ exists mortality_rates,
       get_mortality_rates_by_age two_rates two_brackets = Ok mortality_rates
       /\ calc_death 40 mortality_rates = Ok (2 # 100).
Proof.
  assert (Hkeys : forall b, b ∈ dict_keys two_rates -> b ∈ dict_keys two_brackets)
    by (intros b Hb; exact Hb).
  split; [exact Hkeys|].
  destruct (proj1 (get_mortality_rates_by_age_lookup two_rates two_brackets) Hkeys)
    as (m & Hm & Hlk).
  exists m. split; [exact Hm|]. apply Hlk.
  exists 1%nat, 1%nat, (np_arange 18 100).
  split; [reflexivity|]. split; [reflexivity|].
  split; [apply elem_of_np_arange; lia|].
  intros j b' rate' ages' Hj Hlkj. destruct j as [|[|j]]; [lia|lia|done].
Defined.

(** ** More on the categorical sampler *)

(** When [Sum] is the mass of non-negative [pix] and is positive, the
    position a trial marks holds a positive probability. *)
Lemma multinomial_trial_positive (pix : list Q) (Sum : Q) (s : RandomState) (k : nat) :
  Forall (fun p => 0 <= p) pix -> 0 < Sum -> Sum == np_sum pix ->
  exists counts s' i p,
    multinomial_trial pix Sum s = (Ok counts, s')
    /\ np_where_from k counts = [(k + i)%nat]
    /\ pix !! i = Some p /\ 0 < p.
Proof.
  revert Sum s k. induction pix as [|p pix IH]; intros Sum s k Hnn Hpos Hsum.
  - rewrite np_sum_nil in Hsum. lra.
  - apply Forall_cons in Hnn as [Hp Hnn]. rewrite np_sum_cons in Hsum.
    destruct pix as [|p' pix].
    + rewrite np_sum_nil in Hsum.
      exists [1%nat], s, 0%nat, p. simpl. rewrite Nat.add_0_r.
      split; [done|]. split; [done|]. split; [done|]. lra.
    + rewrite multinomial_trial_cons. unfold bind at 1. rewrite bernoulli_run.
      destruct (uniform_of_range (s 0%nat)) as [Hu0 Hu1].
      destruct (Qlt_bool _ _) eqn:Ehit.
      * rewrite decide_False by done. unfold ret.
        eexists _, _, 0%nat, p. split; [reflexivity|].
        split; [|split; [done|]].
        -- cbn [np_where_from]. rewrite decide_False by done.
           rewrite np_where_from_zeros. by rewrite Nat.add_0_r.
        -- apply Qlt_bool_iff in Ehit.
           assert (Hq : 0 < p / Sum) by lra.
           destruct (Qlt_le_dec 0 p) as [|Hle]; [done|]. exfalso.
           assert (p / Sum <= 0); [|lra].
           apply Qle_shift_div_r; [done|lra].
      * rewrite decide_True by done. apply Qlt_bool_false in Ehit.
        assert (Hlt : p < Sum).
        { destruct (Qlt_le_dec p Sum) as [|Hge]; [done|]. exfalso.
          assert (1 <= p / Sum); [|lra].
          apply Qle_shift_div_l; [done|lra]. }
        destruct (IH (Sum - p) (advance s) (S k)) as (counts & s' & i & q & Hrun & Hw & Hi & Hq);
          [done|lra|lra|].
        unfold bind. rewrite Hrun. unfold ret.
        exists (0%nat :: counts), s', (S i), q. split; [done|].
        split; [|by split].
        cbn [np_where_from]. rewrite decide_True by done.
        rewrite Hw. f_equal. lia.
Qed.

(** ** Sampling depends on the weights only up to a positive factor *)

Lemma bernoulli_Qeq (p q : Q) (s : RandomState) :
  p == q -> bernoulli p s = bernoulli q s.
Proof. intros Hpq. rewrite !bernoulli_run. unfold Qlt_bool. by rewrite Hpq. Qed.

Lemma multinomial_trial_Qeq (pix pix' : list Q) (Sum Sum' : Q) (s : RandomState) :
  Forall2 Qeq pix pix' -> Sum == Sum' ->
  multinomial_trial pix Sum s = multinomial_trial pix' Sum' s.
Proof.
  intros Hpix. revert Sum Sum' s.
  induction Hpix as [|p p' pix pix' Hp Hpix IH]; intros Sum Sum' s HSum; [done|].
  destruct Hpix as [|q q' pix pix' Hq Hpix]; [done|].
  rewrite !multinomial_trial_cons. unfold bind at 1 3.
  rewrite (bernoulli_Qeq (p / Sum) (p' / Sum')) by (by rewrite Hp, HSum).
  rewrite bernoulli_run.
  destruct (Qlt_bool _ _).
  - rewrite !decide_False by done. simpl.
    by rewrite (Forall2_length _ _ _ Hpix).
  - rewrite !decide_True by done. unfold bind.
    by rewrite (IH (Sum - p) (Sum' - p') (advance s)) by (by rewrite Hp, HSum).
Qed.

Lemma np_sum_Qeq (l l' : list Q) : Forall2 Qeq l l' -> np_sum l == np_sum l'.
Proof.
  induction 1 as [|x y l l' Hxy _ IH]; [done|].
  by rewrite !np_sum_cons, Hxy, IH.
Qed.

Lemma removelast_Forall2 {A B} (R : A -> B -> Prop) (l : list A) (l' : list B) :
  Forall2 R l l' -> Forall2 R (removelast l) (removelast l').
Proof.
  induction 1 as [|x y l l' Hxy Hl IH]; [constructor|].
  destruct Hl as [|x' y' l l' Hxy' Hl]; [constructor|].
  change (Forall2 R (x :: removelast (x' :: l)) (y :: removelast (y' :: l'))).
  by constructor.
Qed.

Lemma check_pvals_float64_eq (pvals pvals' : list float64) :
  Forall2 float64_eq pvals pvals' ->
  option_Forall2 (Forall2 Qeq) (check_pvals pvals) (check_pvals pvals').
Proof.
  induction 1 as [|x y pvals pvals' Hxy _ IH]; [repeat constructor|].
  destruct x as [p| | |], y as [q| | |]; simpl in Hxy; try done; try constructor.
  simpl. rewrite Hxy. destruct (Qle_bool 0 q && Qle_bool q 1); [|constructor].
  destruct IH as [pix pix' Hpix|]; constructor. by constructor.
Qed.

Lemma np_random_multinomial1_float64_eq (pvals pvals' : list float64)
    (s : RandomState) :
  Forall2 float64_eq pvals pvals' ->
  np_random_multinomial1 pvals s = np_random_multinomial1 pvals' s.
Proof.
  intros Heq. unfold np_random_multinomial1.
  pose proof (check_pvals_float64_eq _ _ Heq) as Hchecked.
  destruct (check_pvals pvals) as [pix|], (check_pvals pvals') as [pix'|];
    inversion Hchecked as [? ? Hpix|]; subst; [|done].
  assert (Hchk : Qlt_bool (1 + 1 / 1000000000000) (np_sum (removelast pix))
                 = Qlt_bool (1 + 1 / 1000000000000) (np_sum (removelast pix'))).
  { unfold Qlt_bool. f_equal. apply Qleb_comp; [|reflexivity].
    apply np_sum_Qeq. by apply removelast_Forall2. }
  rewrite Hchk.
  destruct (Qlt_bool (1 + 1 / 1000000000000) (np_sum (removelast pix')));
    [reflexivity|]. by apply multinomial_trial_Qeq.
Qed.

(** Dividing by the total cancels a positive factor common to the
    weight and the total. *)
Lemma np_divide_scale (c x x' t t' : Q) :
  0 < c -> x' == c * x -> t' == c * t ->
  float64_eq (np_divide x' t') (np_divide x t).
Proof.
  intros Hc Hx Ht. unfold np_divide.
  assert (Et : Qeq_bool t' 0 = Qeq_bool (c * t) 0) by (by apply Qeqb_comp).
  assert (Ec : (x' ?= 0) = (c * x ?= 0)) by (by apply Qcompare_comp).
  rewrite Et, Ec.
  destruct (Qeq_bool t 0) eqn:E.
  - apply Qeq_bool_iff in E.
    assert (E' : Qeq_bool (c * t) 0 = true) by (apply Qeq_bool_iff; rewrite E; ring).
    rewrite E'. destruct (x ?= 0) eqn:Ex.
    + apply Qeq_alt in Ex.
      assert (Ecx : (c * x ?= 0) = Eq) by (apply Qeq_alt; rewrite Ex; ring).
      by rewrite Ecx.
    + apply Qlt_alt in Ex.
      assert (Ecx : (c * x ?= 0) = Lt).
      { apply Qlt_alt. assert (H : c * x < c * 0) by (by apply Qmult_lt_l).
        by rewrite Qmult_0_r in H. }
      by rewrite Ecx.
    + apply Qgt_alt in Ex.
      assert (Ecx : (c * x ?= 0) = Gt).
      { apply Qgt_alt. assert (H : c * 0 < c * x) by (by apply Qmult_lt_l).
        by rewrite Qmult_0_r in H. }
      by rewrite Ecx.
  - apply Qeq_bool_neq in E.
    assert (E' : Qeq_bool (c * t) 0 = false).
    { apply not_true_is_false. intros H%Qeq_bool_iff.
      apply Qmult_integral in H as [H|H]; [lra|done]. }
    rewrite E'. change (x' / t' == x / t). rewrite Hx, Ht. field. split; [done|lra].
Qed.

(** Two arrays whose weights differ by a positive factor are sampled
    alike. *)
Lemma sample_single_array_proportional {K : Type} `{EqDecision K}
    (key_le : K -> K -> bool) (c : Q) (a a' : list Q) (s : RandomState) :
  0 < c -> Forall2 (fun x' x => x' == c * x) a' a ->
  sample_single key_le (PyArray a') s = sample_single key_le (PyArray a) s.
Proof.
  intros Hc Haa. unfold sample_single.
  assert (Hsum : np_sum a' == c * np_sum a).
  { induction Haa as [|x' x a' a Hx _ IH]; [rewrite np_sum_nil; ring|].
    rewrite !np_sum_cons, Hx, IH. ring. }
  assert (Hpv : Forall2 float64_eq
                  (map (fun x => np_divide x (np_sum a')) a')
                  (map (fun x => np_divide x (np_sum a)) a)).
  { apply Forall2_fmap. eapply Forall2_impl; [exact Haa|].
    intros x' x Hx. simpl. by apply (np_divide_scale c). }
  unfold bind at 1 3.
  by rewrite (np_random_multinomial1_float64_eq _ _ s Hpv).
Qed.



(** With every weight multiplied by [c], the loop of [combine_matrices]
    fails alike or gives a matrix of the same shape with every entry
    multiplied by [c]. *)
Lemma combine_from_scale (matrix_dic : dict string ndarray) (c : Q)
    (weights_dic : dict string Q) (M' M : ndarray) :
  shape M' = shape M ->
  (forall i j, entry M' i j == c * entry M i j) ->
  match combine_from matrix_dic (scale_weights c weights_dic) M',
        combine_from matrix_dic weights_dic M with
  | Ok N', Ok N => shape N' = shape N /\ forall i j, entry N' i j == c * entry N i j
  | Raise e', Raise e => e' = e
  | _, _ => False
  end.
Proof.
  revert M' M. induction weights_dic as [|[code w] weights_dic IH];
    intros M' M Hsh Hent.
  - by split.
  - unfold combine_from, scale_weights. cbn [map for_each].
    fold (scale_weights c weights_dic).
    fold (combine_from matrix_dic (scale_weights c weights_dic)).
    fold (combine_from matrix_dic weights_dic).
    destruct (dict_get matrix_dic code) as [A|e]; [|done]. cbn [bind_result].
    injection Hsh as Hr Hc. unfold iadd. cbn [nrows ncols scale]. rewrite Hr, Hc.
    destruct (broadcastable (nrows A) (nrows M) && broadcastable (ncols A) (ncols M));
      [|done].
    cbn [bind_result]. apply IH; [done|].
    intros i j. cbn [entry scale]. rewrite Hent. ring.
Qed.

Lemma bind_same_run {A B} (m' m : rand A) (k : A -> rand B) (s : RandomState) :
  m' s = m s -> bind m' k s = bind m k s.
Proof. intros Hm. unfold bind. by rewrite Hm. Qed.

Lemma append_contact_ages_ext (draw' draw : rand Z) (n : nat)
    (contact_ages : list Z) (s : RandomState) :
  (forall s, draw' s = draw s) ->
  append_contact_ages n draw' contact_ages s
  = append_contact_ages n draw contact_ages s.
Proof.
  intros Hext. revert contact_ages s.
  induction n as [|n IH]; intros contact_ages s; [done|].
  simpl. unfold bind. rewrite Hext. destruct (draw s) as [[a|e] s']; [apply IH|done].
Qed.



(** ** More on the contact age sampler *)

(** The matrices are combined before anything else, so a failure of
    [combine_matrices] is the failure of [sample_n_contact_ages], even for
    no contact.  The age is looked up only when a contact is drawn: with
    no contact the result is the empty sequence whatever the age, and with
    at least one contact an age the dictionary does not cover raises
    [KeyError]. *)
Theorem sample_n_contact_ages_lookups (age : Z) (age_brackets : age_brackets_t)
    (age_by_brackets_dic : dict Z nat)
    (age_mixing_matrix_dic : dict string ndarray) (weights_dic : dict string Q)
    (num_agebrackets : nat) (s : RandomState) :
  (forall e n_contacts,
     combine_matrices age_mixing_matrix_dic weights_dic num_agebrackets = Raise e ->
     sample_n_contact_ages n_contacts age age_brackets age_by_brackets_dic
       age_mixing_matrix_dic weights_dic num_agebrackets s = (Raise e, s))
  /\ (is_ok (combine_matrices age_mixing_matrix_dic weights_dic num_agebrackets) ->
      sample_n_contact_ages 0 age age_brackets age_by_brackets_dic
        age_mixing_matrix_dic weights_dic num_agebrackets s = (Ok [], s))
  /\ (is_ok (combine_matrices age_mixing_matrix_dic weights_dic num_agebrackets) ->
      dict_lookup age_by_brackets_dic age = None ->
      forall n_contacts,
        sample_n_contact_ages (S n_contacts) age age_brackets age_by_brackets_dic
          age_mixing_matrix_dic weights_dic num_agebrackets s = (Raise KeyError, s)).
Proof.
  unfold sample_n_contact_ages. split; [|split].
  - intros e n He. by rewrite He.
  - intros [M HM]. by rewrite HM.
  - intros [M HM] Hage n. rewrite HM, bind_lift_Ok. cbn [append_contact_ages].
    unfold sample_contact_age, dict_get. by rewrite Hage.
Qed.

(** A row whose entries are all zero cannot be sampled: the division by
    the zero total leaves NaNs, which numpy's [multinomial] rejects. *)
Lemma sample_contact_age_zero_row (age : Z) (age_brackets : age_brackets_t)
    (age_by_brackets_dic : dict Z nat) (M : ndarray) (b : nat) (s : RandomState) :
  dict_lookup age_by_brackets_dic age = Some b ->
  (b < nrows M)%nat -> (0 < ncols M)%nat ->
  (forall j, (j < ncols M)%nat -> entry M b j == 0) ->
  sample_contact_age age age_brackets age_by_brackets_dic M s = (Raise ValueError, s).
Proof.
  intros Hage Hb Hcols Hzero. unfold sample_contact_age, dict_get.
  rewrite Hage, bind_lift_Ok. unfold get_row. rewrite decide_True by done.
  rewrite bind_lift_Ok. apply bind_fail, sample_single_array_invalid.
  assert (Hrow : Forall (fun x => x == 0) (row M b)).
  { unfold row. apply Forall_fmap, Forall_forall. intros j Hj%elem_of_seq.
    apply Hzero. lia. }
  unfold row in *. destruct (ncols M) as [|c]; [lia|].
  cbn [seq map] in *. apply Exists_cons_hd, np_divide_bad. left.
  by apply np_sum_all_zero.
Qed.

(** Closing every setting by zeroing all the weights does not give an
    individual no contacts: for well-formed matrices the combined matrix is
    all zero, and drawing even one contact age raises [ValueError]. *)
Theorem sample_n_contact_ages_all_closed (n_contacts : nat) (age : Z)
    (age_brackets : age_brackets_t) (age_by_brackets_dic : dict Z nat)
    (age_mixing_matrix_dic : dict string ndarray) (weights_dic : dict string Q)
    (K b : nat) (s : RandomState) :
  well_formed_mixing age_mixing_matrix_dic weights_dic K ->
  Forall (fun w => w == 0) (dict_values weights_dic) ->
  dict_lookup age_by_brackets_dic age = Some b ->
  (b < K)%nat ->
  sample_n_contact_ages (S n_contacts) age age_brackets age_by_brackets_dic
    age_mixing_matrix_dic weights_dic K s = (Raise ValueError, s).
Proof.
  intros (Hover & _ & Hsel) Hzero Hage Hb.
  destruct (combine_from_square age_mixing_matrix_dic K weights_dic (np_zeros K K))
    as (M & HM & Hsh & Hent); [by intros A [? _]%Hsel|done|done|].
  unfold sample_n_contact_ages, combine_matrices. rewrite HM, bind_lift_Ok.
  cbn [append_contact_ages]. injection Hsh as Hr Hc.
  apply bind_fail, (sample_contact_age_zero_row _ _ _ _ b); [done|lia|lia|].
  intros j Hj. rewrite Hent by lia. rewrite weighted_sum_zero by done. simpl. lra.
Qed.

Lemma sample_n_contact_ages_all_closed_witness :
  well_formed_mixing two_settings all_closed 2
  /\ Forall (fun w => w == 0) (dict_values all_closed)
  /\ dict_lookup (get_age_by_brackets_dic two_brackets) 10%Z = Some 0%nat
  /\ forall s,
       sample_n_contact_ages 1 10 two_brackets (get_age_by_brackets_dic two_brackets)
         two_settings all_closed 2 s = (Raise ValueError, s).
Proof.
  assert (Hwf : well_formed_mixing two_settings all_closed 2).
  { split; [by intros code Hc|]. split; [by repeat constructor|].
    intros A (code & Hc & HA). unfold all_closed, dict_keys in Hc. simpl in Hc.
    assert (Hnn : forall (B : ndarray), B = cross_matrix \/ B = mat_2x2 ->
              shape B = (2%nat, 2%nat)
              /\ forall i j, (i < 2)%nat -> (j < 2)%nat -> 0 <= entry B i j).
    { intros B [-> | ->]; (split; [done|]); intros i j Hi Hj;
        (destruct i as [|[|i]]; [| |lia]); (destruct j as [|[|j]]; [| |lia]); done. }
    apply Hnn.
    repeat (apply elem_of_cons in Hc as [->|Hc]);
      [left; by injection HA as <-|right; by injection HA as <-|
       by apply elem_of_nil in Hc]. }
  assert (Hzero : Forall (fun w => w == 0) (dict_values all_closed))
    by (by repeat constructor).
  assert (Hage : dict_lookup (get_age_by_brackets_dic two_brackets) 10%Z
                 = Some 0%nat) by (vm_compute; reflexivity).
  split; [exact Hwf|]. split; [exact Hzero|]. split; [exact Hage|]. intros s.
  apply (sample_n_contact_ages_all_closed 0 10 two_brackets
           (get_age_by_brackets_dic two_brackets) two_settings all_closed 2 0 s
           Hwf Hzero Hage).
  lia.
Defined.

(** One contact age drawn from a non-negative matrix comes from a
    bracket to which the row of the individual gives a positive weight. *)
Lemma sample_contact_age_positive (age : Z) (age_brackets : age_brackets_t)
    (age_by_brackets_dic : dict Z nat) (K b : nat) (M : ndarray) (s : RandomState) :
  brackets_defined age_brackets K ->
  dict_lookup age_by_brackets_dic age = Some b -> (b < K)%nat ->
  shape M = (K, K) ->
  (forall i j, (i < K)%nat -> (j < K)%nat -> 0 <= entry M i j) ->
  ~ np_sum (row M b) == 0 ->
  exists a s',
    sample_contact_age age age_brackets age_by_brackets_dic M s = (Ok a, s')
    /\ exists b_contact ages,
         (b_contact < K)%nat /\ 0 < entry M b b_contact
         /\ dict_lookup age_brackets b_contact = Some ages /\ a ∈ ages.
Proof.
  intros Hbrackets Hage Hb [= Hr Hc] Hnn Hrow. unfold sample_contact_age.
  unfold dict_get. rewrite Hage, bind_lift_Ok.
  unfold get_row. rewrite decide_True by lia. rewrite bind_lift_Ok.
  assert (Hrnn : Forall (fun x => 0 <= x) (row M b)).
  { apply row_nonneg. intros j Hj. apply Hnn; lia. }
  assert (Hpos : 0 < np_sum (row M b))
    by (pose proof (np_sum_nonneg _ Hrnn); lra).
  rewrite (bind_same_run _ _ _ _ (sample_single_array_trial Nat.leb (row M b) s Hrnn Hrow)).
  destruct (multinomial_trial_positive
              (map (fun x => x / np_sum (row M b)) (row M b)) 1 s 0)
    as (counts & s1 & j & p & Hrun & Hw & Hj & Hp).
  { apply Forall_fmap. eapply Forall_impl; [exact Hrnn|]. intros x Hx. simpl in *.
    apply Qle_shift_div_l; [done|lra]. }
  { lra. }
  { rewrite np_sum_map_div. field. lra. }
  rewrite list_lookup_fmap in Hj.
  destruct (row M b !! j) as [w|] eqn:Ew; [|done]. injection Hj as <-.
  assert (Hw0 : 0 < w).
  { destruct (Qlt_le_dec 0 w) as [|Hle]; [done|]. exfalso.
    assert (w / np_sum (row M b) <= 0); [|lra].
    apply Qle_shift_div_r; [done|lra]. }
  assert (HjK : (j < K)%nat).
  { apply lookup_lt_Some in Ew. by rewrite row_length, Hc in Ew. }
  assert (Hwj : w = entry M b j).
  { unfold row in Ew. rewrite list_lookup_fmap in Ew.
    destruct (seq 0 (ncols M) !! j) as [j'|] eqn:Ej; [|done].
    apply lookup_seq in Ej as [-> _]. by injection Ew as <-. }
  unfold bind at 1. unfold bind at 1. rewrite Hrun. unfold np_where. rewrite Hw.
  change (getitem [(0 + j)%nat] 0) with (Ok j). rewrite bind_lift_Ok. unfold ret.
  destruct (Hbrackets j HjK) as (ages & Hages & Hne).
  unfold bracket_of_sample, dict_get. rewrite Hages, bind_lift_Ok.
  destruct (np_random_choice_run ages s1 Hne) as (a & Hchoice & Ha).
  exists a, (advance s1). split; [done|].
  exists j, ages. rewrite <- Hwj. by repeat split.
Qed.



(** ** More on the bracket sampler and the age-sex generator *)

Section BracketSamplerFacts.
Context {K : Type} `{EqDecision K} (key_le : K -> K -> bool).

(** Without normalisation the argument checks of [multinomial] see the
    values of the [dict] themselves. *)
Lemma sample_bracket_invalid (distr : dict K Q) (brackets : age_brackets_t)
    (s : RandomState) (k : K) (v : Q) :
  dict_lookup distr k = Some v -> v < 0 \/ 1 < v ->
  sample_bracket key_le distr brackets s = (Raise ValueError, s).
Proof.
  intros Hk Hv. unfold sample_bracket.
  destruct (sorted_distr_complete key_le distr) as (vs & Hvs & Hall).
  rewrite Hvs, bind_lift_Ok.
  apply bind_fail, np_random_multinomial1_invalid.
  apply Exists_fmap, Exists_exists. exists v. split; [|done].
  by apply (Hall k).
Qed.

(** For probabilities that sum to at most one the checks pass and the
    sample is a position of the sorted keys. *)
Lemma sample_bracket_run (distr : dict K Q) (brackets : age_brackets_t)
    (s : RandomState) :
  dict_wf distr -> distr <> [] ->
  Forall (fun w => 0 <= w) (dict_values distr) ->
  np_sum (dict_values distr) <= 1 ->
  exists index s',
    sample_bracket key_le distr brackets s = (Ok index, s')
    /\ (index < length distr)%nat.
Proof.
  intros Hwf Hne Hnn Hsum. unfold sample_bracket.
  destruct (sorted_distr_Permutation key_le distr Hwf) as (vs & Hvs & Hperm & Hlen).
  assert (Hvnn : Forall (fun q => 0 <= q) vs) by (by rewrite Hperm).
  assert (Hvsum : np_sum vs <= 1) by (by rewrite (np_sum_Permutation _ _ Hperm)).
  assert (Hrange : Forall (fun q => 0 <= q /\ q <= 1) vs).
  { apply Forall_forall. intros q Hq. split.
    - by apply (proj1 (Forall_forall _ _) Hvnn).
    - pose proof (np_sum_elem_le vs q Hvnn Hq). lra. }
  assert (Hvne : vs <> []).
  { intros ->. apply Permutation_nil_l in Hperm. by destruct distr. }
  rewrite Hvs, bind_lift_Ok. unfold np_random_multinomial1.
  rewrite check_pvals_valid by done.
  assert (Hchk : Qlt_bool (1 + 1 / 1000000000000) (np_sum (removelast vs)) = false).
  { apply Qlt_bool_false. pose proof (np_sum_removelast_le vs Hvnn).
    assert (0 <= 1 / 1000000000000) by done. lra. }
  rewrite Hchk.
  destruct (multinomial_trial_run vs 1 s 0 Hvne) as (counts & s' & i & Hrun & Hi & Hw).
  rewrite (bind_run _ _ _ _ _ Hrun).
  unfold np_where. rewrite Hw.
  change (getitem [(0 + i)%nat] 0) with (Ok i).
  rewrite bind_lift_Ok. exists i, s'. split; [done|].
  rewrite Hlen, (Permutation_length (sorted_Permutation key_le (dict_keys distr))) in Hi.
  unfold dict_keys in Hi. by rewrite length_map in Hi.
Qed.
End BracketSamplerFacts.



(** [sample_bracket] does not normalise its distribution.  When some
    value lies outside [[0, 1]], as with raw counts, it raises [ValueError]
    before anything is drawn, and [get_age_sex] answers with the fallback
    pair (a uniform sex and a clamped normal age), whatever the bracket
    data say. *)
Theorem get_age_sex_unnormalised_distr {K : Type} `{EqDecision K}
    (key_le : K -> K -> bool)
    (gender_fraction_by_age : dict string (dict nat Q))
    (age_bracket_distr : dict K Q) (age_by_brackets : dict Z nat)
    (age_brackets : age_brackets_t) (min_age max_age age_mean age_std : Q)
    (s : RandomState) (k : K) (v : Q) :
  dict_lookup age_bracket_distr k = Some v ->
  v < 0 \/ 1 < v ->
  sample_bracket key_le age_bracket_distr age_brackets s = (Raise ValueError, s)
  /\ get_age_sex key_le gender_fraction_by_age age_bracket_distr age_by_brackets
       age_brackets min_age max_age age_mean age_std s
     = get_age_sex_fallback min_age max_age age_mean age_std s.
Proof.
  intros Hk Hv.
  pose proof (sample_bracket_invalid key_le age_bracket_distr age_brackets s k v Hk Hv)
    as Hraise.
  split; [done|]. unfold get_age_sex, try_except, get_age_sex_primary.
  by rewrite (bind_fail _ _ _ _ _ Hraise).
Qed.

Lemma get_age_sex_unnormalised_distr_witness :
  dict_lookup bracket_counts 1%nat = Some 380
  /\ (380 < 0 \/ 1 < 380)
  /\ forall s,
       sample_bracket Nat.leb bracket_counts two_brackets s = (Raise ValueError, s)
       /\ get_age_sex Nat.leb male_fractions bracket_counts
            (get_age_by_brackets_dic two_brackets) two_brackets 0 99 40 20 s
          = get_age_sex_fallback 0 99 40 20 s.
Proof.
  assert (Hk : dict_lookup bracket_counts 1%nat = Some 380) by reflexivity.
  assert (Hv : 380 < 0 \/ 1 < 380) by (right; reflexivity).
  split; [exact Hk|]. split; [exact Hv|]. intros s.
  exact (get_age_sex_unnormalised_distr Nat.leb male_fractions bracket_counts
           (get_age_by_brackets_dic two_brackets) two_brackets 0 99 40 20 s
           1%nat 380 Hk Hv).
Defined.



(** ** More on [norm_dic] *)

Lemma np_sum_map_scale (c : Q) (l : list Q) :
  np_sum (map (fun w => c * w) l) == c * np_sum l.
Proof.
  induction l as [|x l IH]; simpl.
  - rewrite np_sum_nil. lra.
  - rewrite !np_sum_cons, IH. lra.
Qed.

Lemma scale_dict_keys {K} (c : Q) (d : dict K Q) :
  dict_keys (scale_dict c d) = dict_keys d.
Proof.
  unfold dict_keys, scale_dict. rewrite <- list_fmap_compose.
  apply list_fmap_ext. by intros ? [??].
Qed.

Lemma scale_dict_values {K} (c : Q) (d : dict K Q) :
  dict_values (scale_dict c d) = map (fun w => c * w) (dict_values d).
Proof.
  unfold dict_values, scale_dict. rewrite <- !list_fmap_compose.
  apply list_fmap_ext. by intros ? [??].
Qed.





(** ** More on the contact matrix combiner *)

Lemma for_each_app {A S} (body : S -> A -> result S) (l1 l2 : list A) (s : S) :
  for_each body (l1 ++ l2) s = let? s' := for_each body l1 s in for_each body l2 s'.
Proof.
  revert s. induction l1 as [|y l1 IH]; intros s; simpl; [done|].
  destruct (body s y); [apply IH|done].
Qed.

(** A setting of the weight set without a matrix raises [KeyError] when
    the loop reaches it, whatever its weight (a weight of zero does not
    exempt it), provided the settings before it have matrices that can be
    added. *)
Theorem combine_matrices_missing_setting (matrix_dic : dict string ndarray)
    (before after : dict string Q) (setting_code : string) (w : Q) (K : nat) :
  weights_over before matrix_dic ->
  (forall A, selected matrix_dic before A -> broadcasts_to A K) ->
  dict_lookup matrix_dic setting_code = None ->
  combine_matrices matrix_dic (before ++ (setting_code, w) :: after) K
  = Raise KeyError.
Proof.
  intros Hover Hall Hnone. unfold combine_matrices, combine_from.
  rewrite for_each_app.
  destruct (combine_from_broadcast matrix_dic before (np_zeros K K) Hover)
    as [_ Hok].
  destruct Hok as [M HM].
  { intros A HA. by apply broadcasts_to_spec, Hall. }
  unfold combine_from in HM. rewrite HM. simpl.
  unfold dict_get. by rewrite Hnone.
Qed.

Lemma combine_matrices_missing_setting_witness :
  weights_over weight_H_1 household_only
  /\ (forall A, selected household_only weight_H_1 A -> broadcasts_to A 2)
  /\ dict_lookup household_only "S"%string = None
  /\ combine_matrices household_only (weight_H_1 ++ [("S"%string, 0)]) 2
     = Raise KeyError.
Proof.
  assert (Hover : weights_over weight_H_1 household_only)
    by (intros code Hc; exact Hc).
  assert (Hall : forall A, selected household_only weight_H_1 A -> broadcasts_to A 2).
  { intros A (code & Hc & HA). unfold weight_H_1, dict_keys in Hc. simpl in Hc.
    apply list_elem_of_singleton in Hc as ->. injection HA as <-.
    split; by left. }
  assert (Hnone : dict_lookup household_only "S"%string = None) by reflexivity.
  split; [exact Hover|]. split; [exact Hall|]. split; [exact Hnone|].
  exact (combine_matrices_missing_setting household_only weight_H_1 []
           "S"%string 0 2 Hover Hall Hnone).
Defined.

(** Adding a matrix that can be broadcast adds its broadcast entries. *)
Lemma iadd_broadcast (M A : ndarray) :
  broadcastable (nrows A) (nrows M) && broadcastable (ncols A) (ncols M) = true ->
  exists M', iadd M A = Ok M' /\ shape M' = shape M
    /\ forall i j, entry M' i j == entry M i j + broadcast_entry A i j.
Proof.
  intros Hb. unfold iadd. rewrite Hb.
  eexists. split; [reflexivity|]. split; [reflexivity|].
  intros i j. reflexivity.
Qed.

Lemma combine_from_broadcast_sum (matrix_dic : dict string ndarray) (K : nat)
    (weights_dic : dict string Q) (M : ndarray) :
  weights_over weights_dic matrix_dic ->
  (forall A, selected matrix_dic weights_dic A -> broadcasts_to A K) ->
  shape M = (K, K) ->
  exists M', combine_from matrix_dic weights_dic M = Ok M' /\ shape M' = (K, K)
    /\ forall i j,
         entry M' i j == entry M i j + broadcast_sum matrix_dic weights_dic i j.
Proof.
  revert M.
  induction weights_dic as [|[code w] weights_dic IH]; intros M Hover Hall HM.
  - exists M. split; [reflexivity|]. split; [done|].
    intros i j. unfold broadcast_sum. simpl. lra.
  - assert (Hcode : is_Some (dict_lookup matrix_dic code)).
    { apply dict_lookup_is_Some, Hover. apply list_elem_of_here. }
    destruct Hcode as [A HA].
    assert (HbA : broadcasts_to A K).
    { apply Hall. exists code. split; [apply list_elem_of_here|done]. }
    injection HM as Hr Hc.
    destruct (iadd_broadcast M (scale A w)) as (M1 & HM1 & Hsh1 & Hent1).
    { simpl. rewrite Hr, Hc. by apply broadcasts_to_spec. }
    destruct (IH M1) as (M' & HM' & Hsh' & Hent').
    { intros c Hcin. apply Hover. by apply list_elem_of_further. }
    { intros B (c & Hcin & HB). apply Hall. exists c.
      split; [by apply list_elem_of_further|done]. }
    { rewrite Hsh1. unfold shape. by rewrite Hr, Hc. }
    exists M'. split; [|split; [done|]].
    + unfold combine_from in *. simpl. unfold dict_get. rewrite HA. simpl.
      by rewrite HM1.
    + intros i j. rewrite (Hent' i j), (Hent1 i j).
      unfold broadcast_sum at 2. cbn [foldr].
      fold (broadcast_sum matrix_dic weights_dic i j). rewrite HA.
      unfold broadcast_entry. simpl. lra.
Qed.

(** What [combine_matrices] returns when the selected matrices are not
    all [K]x[K] but can be broadcast: a [K]x[K] matrix whose entry [(i, j)]
    is the weighted sum of the broadcast matrices, so that a 1x1 matrix
    adds its one entry, times its weight, to every cell, and a matrix of
    one row adds that row to every row. *)
Theorem combine_matrices_broadcast_sum (matrix_dic : dict string ndarray)
    (weights_dic : dict string Q) (K : nat) :
  weights_over weights_dic matrix_dic ->
  (forall A, selected matrix_dic weights_dic A -> broadcasts_to A K) ->
  exists M, combine_matrices matrix_dic weights_dic K = Ok M
    /\ shape M = (K, K)
    /\ forall i j, (i < K)%nat -> (j < K)%nat ->
         entry M i j == broadcast_sum matrix_dic weights_dic i j.
Proof.
  intros Hover Hall.
  destruct (combine_from_broadcast_sum matrix_dic K weights_dic (np_zeros K K)
              Hover Hall eq_refl) as (M & HM & Hsh & Hent).
  exists M. split; [exact HM|]. split; [exact Hsh|].
  intros i j _ _. rewrite (Hent i j). simpl. lra.
Qed.

Lemma combine_matrices_broadcast_sum_witness :
  weights_over weights_H_S mixed_sizes
  /\ (forall A, selected mixed_sizes weights_H_S A -> broadcasts_to A 2)
  /\ exists M, combine_matrices mixed_sizes weights_H_S 2 = Ok M
       /\ shape M = (2%nat, 2%nat)
       /\ forall i j, (i < 2)%nat -> (j < 2)%nat ->
            entry M i j == broadcast_sum mixed_sizes weights_H_S i j.
Proof.
  assert (Hover : weights_over weights_H_S mixed_sizes)
    by (intros code Hc; exact Hc).
  assert (Hall : forall A, selected mixed_sizes weights_H_S A -> broadcasts_to A 2).
  { intros A (code & Hc & HA). unfold weights_H_S, dict_keys in Hc. simpl in Hc.
    apply elem_of_cons in Hc as [->|Hc].
    - injection HA as <-. split; by left.
    - apply list_elem_of_singleton in Hc as ->. injection HA as <-.
      split; by right. }
  split; [exact Hover|]. split; [exact Hall|].
  exact (combine_matrices_broadcast_sum mixed_sizes weights_H_S 2 Hover Hall).
Defined.

(** * Facts of the float64 model *)

(** ** Zeros *)

Lemma float_zero_cases (x : float) :
  float_zero x -> x = 0%float \/ x = (-0)%float.
Proof.
  unfold float_zero. rewrite FloatAxioms.eqb_spec. intros H.
  rewrite <- (SF2Prim_Prim2SF x).
  change (Prim2SF 0) with (S754_zero false) in H.
  destruct (Prim2SF x) as [[|]| [|] | |[|] m e]; try discriminate H.
  - by right.
  - by left.
Qed.

Lemma float_zero_add (x y : float) :
  float_zero x -> float_zero y -> float_zero (x + y).
Proof.
  by intros [->| ->]%float_zero_cases [->| ->]%float_zero_cases.
Qed.

Lemma sum_loop_zero (res : float) (a : list float) :
  float_zero res -> Forall float_zero a -> float_zero (F64.sum_loop res a).
Proof.
  intros Hres Ha. revert res Hres.
  induction Ha as [|x a Hx _ IH]; intros res Hres; [done|].
  apply IH. by apply float_zero_add.
Qed.

Lemma add_block_zero (r block : list float) :
  Forall float_zero r -> Forall float_zero block ->
  Forall float_zero (F64.add_block r block).
Proof.
  intros Hr. revert block. induction Hr as [|x r Hx _ IH]; intros block Hb; [done|].
  destruct Hb as [|y block Hy Hb]; [done|].
  constructor; [by apply float_zero_add|by apply IH].
Qed.

Lemma add_blocks_zero (blocks : nat) (r a : list float) :
  Forall float_zero r -> Forall float_zero a ->
  Forall float_zero (F64.add_blocks blocks r a).
Proof.
  revert r a. induction blocks as [|blocks IH]; intros r a Hr Ha; [done|].
  apply IH.
  - apply add_block_zero; [done|by apply Forall_take].
  - by apply Forall_drop.
Qed.

Lemma nth_zero (i : nat) (r : list float) :
  Forall float_zero r -> float_zero (nth i r 0%float).
Proof.
  intros Hr. revert i. induction Hr as [|x r Hx _ IH]; intros [|i]; simpl; done.
Qed.

Lemma sum8_zero (r : list float) : Forall float_zero r -> float_zero (F64.sum8 r).
Proof.
  intros Hr. unfold F64.sum8. repeat apply float_zero_add; by apply nth_zero.
Qed.

Lemma halves_shorter (n : nat) :
  (F64.PW_BLOCKSIZE < n)%nat ->
  (0 < n / 2 - (n / 2) mod 8 < n)%nat.
Proof.
  unfold F64.PW_BLOCKSIZE. intros Hn.
  assert (H2 : (64 <= n / 2)%nat) by (apply (Nat.Div0.div_le_mono 128 n 2); lia).
  assert (Hm : ((n / 2) mod 8 < 8)%nat) by (apply Nat.mod_upper_bound; lia).
  assert (Hh : (n / 2 < n)%nat) by (apply Nat.div_lt; lia).
  lia.
Qed.

Lemma pairwise_sum_zero (fuel : nat) (a : list float) :
  (length a <= fuel)%nat -> Forall float_zero a ->
  float_zero (F64.pairwise_sum fuel a).
Proof.
  revert a. induction fuel as [|fuel IH]; intros a Hfuel Ha.
  - destruct a; [done|simpl in Hfuel; lia].
  - cbn [F64.pairwise_sum].
    destruct (decide (length a < 8)%nat); [by apply sum_loop_zero|].
    destruct (decide (length a <= F64.PW_BLOCKSIZE)%nat).
    + apply sum_loop_zero; [|by apply Forall_drop].
      apply sum8_zero, add_blocks_zero; [by apply Forall_take|by apply Forall_drop].
    + pose proof (halves_shorter (length a)) as Hh.
      apply float_zero_add; apply IH.
      * rewrite length_take. lia.
      * by apply Forall_take.
      * rewrite length_drop. lia.
      * by apply Forall_drop.
Qed.

(** The sum of zeros is the zero [0.0]. *)
Lemma F64_np_sum_zeros (a : list float) :
  Forall float_zero a -> F64.np_sum a = 0%float.
Proof.
  intros Ha. unfold F64.np_sum.
  by destruct (float_zero_cases _ (pairwise_sum_zero (length a) a (le_n _) Ha))
    as [->| ->].
Qed.

(** More fuel than the length of the array changes nothing. *)
Lemma pairwise_sum_fuel (fuel fuel' : nat) (a : list float) :
  (length a <= fuel)%nat -> (length a <= fuel')%nat ->
  F64.pairwise_sum fuel a = F64.pairwise_sum fuel' a.
Proof.
  revert fuel' a. induction fuel as [|fuel IH]; intros fuel' a Hf Hf'.
  - destruct a; [|simpl in Hf; lia]. by destruct fuel'.
  - destruct fuel' as [|fuel'].
    { destruct a; [done|simpl in Hf'; lia]. }
    cbn [F64.pairwise_sum].
    destruct (decide (length a < 8)%nat); [done|].
    destruct (decide (length a <= F64.PW_BLOCKSIZE)%nat); [done|].
    pose proof (halves_shorter (length a)) as Hh.
    f_equal; apply IH; rewrite ?length_take, ?length_drop; lia.
Qed.

(** ** [norm_dic] in float64 *)

Section NormDicF64.
Context {K : Type} `{EqDecision K}.

Lemma F64_norm_dic_zero (dic : dict K float) :
  float_zero (F64.np_sum (dict_values dic)) -> F64.norm_dic dic = dic.
Proof. unfold float_zero, F64.norm_dic. by intros ->. Qed.

Lemma F64_norm_dic_nonzero (dic : dict K float) :
  dict_wf dic -> ~ float_zero (F64.np_sum (dict_values dic)) ->
  F64.norm_dic dic
  = map (fun '(i, w) => (i, (w / F64.np_sum (dict_values dic))%float)) dic.
Proof.
  intros Hwf Ht. unfold F64.norm_dic, float_zero in *.
  destruct (_ =? _)%float; [done|].
  by rewrite (fill_new_dic (fun w => (w / F64.np_sum (dict_values dic))%float)).
Qed.

Lemma F64_norm_dic_keys (dic : dict K float) :
  dict_wf dic -> dict_keys (F64.norm_dic dic) = dict_keys dic.
Proof.
  intros Hwf.
  destruct (decide (float_zero (F64.np_sum (dict_values dic)))) as [Ht|Ht].
  - by rewrite F64_norm_dic_zero.
  - rewrite F64_norm_dic_nonzero by done. unfold dict_keys.
    rewrite <- list_fmap_compose. apply list_fmap_ext. by intros ? [??].
Qed.

Lemma F64_norm_dic_lookup (dic : dict K float) (k : K) (w : float) :
  dict_wf dic -> ~ float_zero (F64.np_sum (dict_values dic)) ->
  dict_lookup dic k = Some w ->
  dict_lookup (F64.norm_dic dic) k
  = Some (w / F64.np_sum (dict_values dic))%float.
Proof.
  intros Hwf Ht Hl. apply dict_lookup_elem_wf.
  - unfold dict_wf. by rewrite F64_norm_dic_keys.
  - rewrite F64_norm_dic_nonzero by done.
    apply list_elem_of_fmap. exists (k, w). split; [done|].
    by apply dict_lookup_Some_elem.
Qed.
End NormDicF64.




(** ** [sample_single] in float64 *)

Lemma F64_bernoulli_run (p : float) (s : RandomState) :
  exists hit, F64.bernoulli p s = (Ok hit, advance s) /\ (hit = 0%nat \/ hit = 1%nat).
Proof.
  unfold F64.bernoulli, F64.random_sample, bind, next_raw, ret.
  destruct (_ <? p)%float; eexists; (split; [reflexivity|]); auto.
Qed.

Lemma F64_multinomial_trial_cons (p p' : float) (pix : list float) (Sum : float) :
  F64.multinomial_trial (p :: p' :: pix) Sum
  = let* hit := F64.bernoulli (p / Sum)%float in
    if decide (hit = 0%nat) then
      let* counts := F64.multinomial_trial (p' :: pix) (Sum - p)%float in
      ret (0%nat :: counts)
    else ret (hit :: replicate (length (p' :: pix)) 0%nat).
Proof. reflexivity. Qed.

(** One trial marks exactly one position of [pix]. *)
Lemma F64_multinomial_trial_run (pix : list float) (Sum : float)
    (s : RandomState) (k : nat) :
  pix <> [] ->
  exists counts s' i,
    F64.multinomial_trial pix Sum s = (Ok counts, s')
    /\ (i < length pix)%nat
    /\ np_where_from k counts = [(k + i)%nat].
Proof.
  revert Sum s k. induction pix as [|p pix IH]; intros Sum s k Hne; [done|].
  destruct pix as [|p' pix].
  - exists [1%nat], s, 0%nat. simpl. split; [done|]. split; [lia|].
    by rewrite Nat.add_0_r.
  - rewrite F64_multinomial_trial_cons.
    destruct (F64_bernoulli_run (p / Sum)%float s) as (hit & Hhit & [-> | ->]);
      rewrite (bind_run _ _ _ _ _ Hhit).
    + rewrite decide_True by done.
      destruct (IH (Sum - p)%float (advance s) (S k))
        as (counts & s' & i & Hrun & Hi & Hw); [done|].
      rewrite (bind_run _ _ _ _ _ Hrun). unfold ret.
      exists (0%nat :: counts), s', (S i). split; [done|].
      split; [simpl in *; lia|].
      cbn [np_where_from]. rewrite decide_True by done.
      rewrite Hw. f_equal. lia.
    + rewrite decide_False by done. unfold ret.
      eexists _, _, 0%nat. split; [reflexivity|]. split; [simpl; lia|].
      cbn [np_where_from]. rewrite decide_False by done.
      rewrite np_where_from_zeros. by rewrite Nat.add_0_r.
Qed.

Lemma forallb_pval_ok_false (pvals : list float) :
  Exists (fun p => F64.pval_ok p = false) pvals ->
  forallb F64.pval_ok pvals = false.
Proof.
  induction 1 as [p pvals Hp|p pvals _ IH]; simpl.
  - by rewrite Hp.
  - rewrite IH. apply andb_false_r.
Qed.

Lemma forallb_pval_ok_true (pvals : list float) :
  Forall (fun p => F64.pval_ok p = true) pvals ->
  forallb F64.pval_ok pvals = true.
Proof.
  induction 1 as [|p pvals Hp _ IH]; simpl; [done|]. by rewrite Hp, IH.
Qed.

(** What [multinomial] does with a vector of probabilities. *)
Lemma F64_multinomial1_cases (pvals : list float) (s : RandomState) :
  (pvals = [] -> F64.np_random_multinomial1 pvals s = (Ok [], s))
  /\ (Exists (fun p => F64.pval_ok p = false) pvals ->
      F64.np_random_multinomial1 pvals s = (Raise ValueError, s))
  /\ (pvals <> [] -> sum_too_large pvals = true ->
      F64.np_random_multinomial1 pvals s = (Raise ValueError, s))
  /\ (pvals <> [] -> Forall (fun p => F64.pval_ok p = true) pvals ->
      sum_too_large pvals = false ->
      exists counts s' i,
        F64.np_random_multinomial1 pvals s = (Ok counts, s')
        /\ (i < length pvals)%nat /\ np_where counts = [i]).
Proof.
  unfold F64.np_random_multinomial1, sum_too_large.
  split; [by intros ->|]. split; [|split].
  - intros Hbad. by rewrite forallb_pval_ok_false.
  - intros Hne ->. rewrite bool_decide_eq_true_2 by done.
    by destruct (forallb _ _).
  - intros Hne Hok ->. rewrite forallb_pval_ok_true by done.
    rewrite andb_false_r.
    destruct (F64_multinomial_trial_run pvals 1%float s 0 Hne)
      as (counts & s' & i & Hrun & Hi & Hw).
    by exists counts, s', i.
Qed.

Lemma omap_cons_Some {A B} (f : A -> option B) (x : A) (y : B) (l : list A) :
  f x = Some y -> omap f (x :: l) = y :: omap f l.
Proof. intros Hx. simpl. by rewrite Hx. Qed.

Lemma map_result_omap {K V} `{EqDecision K} (d : dict K V) (ks : list K) :
  (forall k, k ∈ ks -> k ∈ dict_keys d) ->
  map_result (dict_get d) ks = Ok (omap (dict_lookup d) ks)
  /\ length (omap (dict_lookup d) ks) = length ks.
Proof.
  induction ks as [|k ks IH]; intros Hks; [done|].
  destruct IH as [Hvs Hlen].
  { intros k' Hk'. apply Hks. by apply list_elem_of_further. }
  destruct (proj2 (dict_lookup_is_Some d k)) as [v Hv].
  { apply Hks. apply list_elem_of_here. }
  cbn [map_result]. rewrite (omap_cons_Some (dict_lookup d) k v) by done.
  unfold dict_get at 1. rewrite Hv. cbn [bind_result].
  rewrite Hvs. cbn [bind_result length]. by rewrite Hlen.
Qed.

Section SamplerF64.
Context {K : Type} `{EqDecision K} (key_le : K -> K -> bool).

(** [sample_single] is [multinomial] on the normalised vector, followed
    by the lookup of the position it marks. *)
Lemma F64_sample_single_dict (d : dict K float) :
  F64.sample_single key_le (F64.PyDict d)
  = let* n := F64.np_random_multinomial1 (normalised key_le (F64.PyDict d)) in
    let* index := lift (getitem (np_where n) 0) in
    let* k := lift (getitem (sorted key_le (dict_keys (F64.norm_dic d))) index) in
    ret (Key k).
Proof.
  unfold F64.sample_single, normalised.
  destruct (map_result_omap (F64.norm_dic d)
              (sorted key_le (dict_keys (F64.norm_dic d)))) as [-> _]; [|done].
  intros k. by rewrite sorted_Permutation.
Qed.

Lemma normalised_dict_length (d : dict K float) :
  length (normalised key_le (F64.PyDict d))
  = length (sorted key_le (dict_keys (F64.norm_dic d))).
Proof.
  unfold normalised. apply map_result_omap.
  intros k. by rewrite sorted_Permutation.
Qed.

Lemma normalised_zero_array (a : list float) :
  a <> [] -> Forall float_zero a ->
  Exists (fun p => F64.pval_ok p = false) (normalised key_le (F64.PyArray a)).
Proof.
  intros Hne Hz. unfold normalised. rewrite (F64_np_sum_zeros a Hz).
  destruct Hz as [|x a Hx _]; [done|]. apply Exists_cons_hd.
  by destruct (float_zero_cases x Hx) as [->| ->].
Qed.
End SamplerF64.

(** C1, amended.  [sample_single] validates nothing itself; it fails
    exactly when numpy's [multinomial] refuses the normalised vector or
    marks no position:  with [IndexError] when the [dict] or the array is
    empty, with [ValueError] when some normalised value is negative, above
    1 or a NaN (so for every non-empty array of zeros), or when all but the
    last sum to more than [1 + 1e-12]; in every other case it returns a key
    or an index.  The random state is untouched by a failure. *)
Theorem sample_single_rejects {K : Type} `{EqDecision K}
    (key_le : K -> K -> bool) (distr : F64.distribution K) (s : RandomState) :
  distribution_f64 distr ->
  (normalised key_le distr = [] ->
     F64.sample_single key_le distr s = (Raise IndexError, s))
  /\ (Exists (fun p => F64.pval_ok p = false) (normalised key_le distr) ->
      F64.sample_single key_le distr s = (Raise ValueError, s))
  /\ (normalised key_le distr <> [] ->
      sum_too_large (normalised key_le distr) = true ->
      F64.sample_single key_le distr s = (Raise ValueError, s))
  /\ (normalised key_le distr <> [] ->
      Forall (fun p => F64.pval_ok p = true) (normalised key_le distr) ->
      sum_too_large (normalised key_le distr) = false ->
      is_ok (fst (F64.sample_single key_le distr s)))
  /\ (forall a, a <> [] -> Forall float_zero a ->
      F64.sample_single key_le (F64.PyArray a) s = (Raise ValueError, s)).
Proof.
  intros Hwf.
  destruct (F64_multinomial1_cases (normalised key_le distr) s)
    as (Hempty & Hbad & Hsum & Hok).
  assert (Hzero : forall a, a <> [] -> Forall float_zero a ->
            F64.sample_single key_le (F64.PyArray a) s = (Raise ValueError, s)).
  { intros a Hne Hz.
    destruct (F64_multinomial1_cases (normalised key_le (F64.PyArray a)) s)
      as (_ & Hbad' & _).
    change (F64.sample_single key_le (F64.PyArray a))
      with (let* n := F64.np_random_multinomial1
                        (normalised key_le (F64.PyArray a)) in
            let* index := lift (getitem (np_where n) 0) in
            ret (@Index K index)).
    by rewrite (bind_fail _ _ _ _ _ (Hbad' (normalised_zero_array key_le a Hne Hz))). }
  destruct distr as [d|a|l|l]; try done.
  - (* a dict *)
    rewrite F64_sample_single_dict.
    split; [|split; [|split; [|split]]].
    + intros E. by rewrite (bind_run _ _ _ _ _ (Hempty E)).
    + intros E. by rewrite (bind_fail _ _ _ _ _ (Hbad E)).
    + intros Hne E. by rewrite (bind_fail _ _ _ _ _ (Hsum Hne E)).
    + intros Hne Hall E.
      destruct (Hok Hne Hall E) as (counts & s' & i & Hrun & Hi & Hw).
      rewrite (bind_run _ _ _ _ _ Hrun), Hw.
      change (getitem [i] 0) with (Ok i). rewrite bind_lift_Ok.
      rewrite normalised_dict_length in Hi.
      destruct (lookup_lt_is_Some_2 _ i Hi) as [k Hk].
      unfold getitem. rewrite Hk, bind_lift_Ok. by exists (Key k).
    + exact Hzero.
  - (* an array *)
    assert (Hrun : F64.sample_single key_le (F64.PyArray a)
              = let* n := F64.np_random_multinomial1
                            (normalised key_le (F64.PyArray a)) in
                let* index := lift (getitem (np_where n) 0) in
                ret (Index index)) by done.
    rewrite Hrun.
    split; [|split; [|split; [|split]]].
    + intros E. by rewrite (bind_run _ _ _ _ _ (Hempty E)).
    + intros E. by rewrite (bind_fail _ _ _ _ _ (Hbad E)).
    + intros Hne E. by rewrite (bind_fail _ _ _ _ _ (Hsum Hne E)).
    + intros Hne Hall E.
      destruct (Hok Hne Hall E) as (counts & s' & i & Hrun' & Hi & Hw).
      rewrite (bind_run _ _ _ _ _ Hrun'), Hw.
      change (getitem [i] 0) with (Ok i). rewrite bind_lift_Ok.
      by exists (Index i).
    + exact Hzero.
Qed.

Lemma sample_single_rejects_witness :
  distribution_f64 mixed_sign_f64
  /\ Exists (fun p => F64.pval_ok p = false) (normalised String.leb mixed_sign_f64)
  /\ forall s, F64.sample_single String.leb mixed_sign_f64 s = (Raise ValueError, s).
Proof.
  assert (Hwf : distribution_f64 mixed_sign_f64)
    by (unfold distribution_f64, dict_wf; simpl;
        apply (bool_decide_unpack _); vm_compute; exact I).
  assert (Hbad : Exists (fun p => F64.pval_ok p = false)
                   (normalised String.leb mixed_sign_f64))
    by (by apply Exists_cons_hd).
  split; [exact Hwf|]. split; [exact Hbad|]. intros s.
  exact (proj1 (proj2 (sample_single_rejects String.leb mixed_sign_f64 s Hwf)) Hbad).
Defined.

(** ** A weight of zero is not drawn *)

Lemma binary_round_aux_sign (mx ex : Z) (lx : location) :
  match binary_round_aux prec emax false mx ex lx with
  | S754_zero _ | S754_nan => True
  | S754_infinity sign | S754_finite sign _ _ => sign = false
  end.
Proof.
  unfold binary_round_aux.
  destruct (shr_fexp prec emax mx ex lx) as [mrs1 e1].
  destruct (shr_fexp prec emax _ e1 loc_Exact) as [mrs2 e2].
  destruct (shr_m mrs2); [done| |done].
  by destruct (_ <=? _)%Z.
Qed.

Lemma of_uint63_not_negative (n : int) : not_negative (of_uint63 n).
Proof.
  unfold not_negative. rewrite FloatAxioms.of_uint63_spec.
  pose proof (Uint63.to_Z_bounded n) as Hn. unfold binary_normalize.
  destruct (Uint63.to_Z n) as [|m|m]; [done| |lia].
  unfold binary_round. destruct (shl_align _ _ _) as [mz ez].
  apply binary_round_aux_sign.
Qed.

(** The uniform draw is not negative. *)
Lemma random_sample_not_negative (s : RandomState) :
  exists u, F64.random_sample s = (Ok u, advance s) /\ not_negative u.
Proof.
  unfold F64.random_sample, bind, next_raw, ret. eexists. split; [reflexivity|].
  unfold not_negative. rewrite FloatAxioms.div_spec.
  pose proof (of_uint63_not_negative
                (Uint63.of_Z (Qfloor (uniform_of (s 0%nat) * 9007199254740992))))
    as Hn.
  unfold not_negative in Hn.
  change (Prim2SF 0x1p+53) with (S754_finite false 4503599627370496 1).
  destruct (Prim2SF (of_uint63 _)) as [sign|sign| |sign m e]; try done.
  - by subst sign.
  - subst sign. unfold SF64div, SFdiv.
    destruct (SFdiv_core_binary _ _ _ _ _ _) as [[mz ez] lz].
    apply binary_round_aux_sign.
Qed.

Lemma ltb_zero_or_nan (u z : float) :
  not_negative u -> zero_or_nan z -> (u <? z)%float = false.
Proof.
  unfold not_negative, zero_or_nan. rewrite FloatAxioms.ltb_spec. unfold SFltb.
  destruct (Prim2SF u) as [su|su| |su mu eu], (Prim2SF z) as [sz|sz| |sz mz ez];
    try done; intros -> _; done.
Qed.

Lemma float_zero_spec (x : float) :
  float_zero x <-> exists sign, Prim2SF x = S754_zero sign.
Proof.
  unfold float_zero. rewrite FloatAxioms.eqb_spec.
  change (Prim2SF 0) with (S754_zero false).
  destruct (Prim2SF x) as [sign|[|]| |[|] m e]; split; try done; try (by intros [? ?]).
  by exists sign.
Qed.

Lemma float_zero_zero_or_nan (x : float) : float_zero x -> zero_or_nan x.
Proof. intros [sign Hx]%float_zero_spec. unfold zero_or_nan. by rewrite Hx. Qed.

(** A zero divided by anything is a zero or a NaN. *)
Lemma zero_div_zero_or_nan (x y : float) : float_zero x -> zero_or_nan (x / y).
Proof.
  intros [sign Hx]%float_zero_spec. unfold zero_or_nan.
  rewrite FloatAxioms.div_spec, Hx. unfold SF64div, SFdiv. by destruct (Prim2SF y).
Qed.

Lemma zero_or_nan_div (x y : float) : zero_or_nan x -> zero_or_nan (x / y).
Proof.
  unfold zero_or_nan. rewrite FloatAxioms.div_spec. unfold SF64div, SFdiv.
  destruct (Prim2SF x); try done. by destruct (Prim2SF y).
Qed.

(** A trial whose probability is a zero or a NaN never succeeds. *)
Lemma F64_bernoulli_never (p : float) (s : RandomState) :
  zero_or_nan p -> F64.bernoulli p s = (Ok 0%nat, advance s).
Proof.
  intros Hp. unfold F64.bernoulli.
  destruct (random_sample_not_negative s) as (u & Hu & Hnn).
  rewrite (bind_run _ _ _ _ _ Hu). by rewrite (ltb_zero_or_nan u p Hnn Hp).
Qed.

Lemma zero_or_nan_dec (x : float) : {zero_or_nan x} + {~ zero_or_nan x}.
Proof.
  unfold zero_or_nan. destruct (Prim2SF x); (left; exact I) || (right; intros []).
Qed.

(** The position a trial marks is the last one, or one whose probability
    is neither a zero nor a NaN. *)
Lemma F64_multinomial_trial_nonzero (pix : list float) (remaining_p : float)
    (s : RandomState) (k : nat) :
  pix <> [] ->
  exists counts s' i p,
    F64.multinomial_trial pix remaining_p s = (Ok counts, s')
    /\ np_where_from k counts = [(k + i)%nat]
    /\ pix !! i = Some p
    /\ (~ zero_or_nan p \/ i = (length pix - 1)%nat).
Proof.
  revert remaining_p s k.
  induction pix as [|p pix IH]; intros remaining_p s k Hne; [done|].
  destruct pix as [|p' pix].
  - exists [1%nat], s, 0%nat, p. simpl. rewrite Nat.add_0_r. by repeat split; auto.
  - rewrite F64_multinomial_trial_cons.
    destruct (IH (remaining_p - p)%float (advance s) (S k))
      as (counts & s' & i & q & Hrun & Hw & Hi & Hq); [done|].
    assert (Hmiss : exists counts s' i q,
              (let* counts := F64.multinomial_trial (p' :: pix) (remaining_p - p)%float in
               ret (0%nat :: counts)) (advance s) = (Ok counts, s')
              /\ np_where_from k counts = [(k + i)%nat]
              /\ (p :: p' :: pix) !! i = Some q
              /\ (~ zero_or_nan q \/ i = (length (p :: p' :: pix) - 1)%nat)).
    { exists (0%nat :: counts), s', (S i), q.
      rewrite (bind_run _ _ _ _ _ Hrun). split; [done|]. split.
      - cbn [np_where_from]. rewrite decide_True by done. rewrite Hw. f_equal. lia.
      - split; [done|]. destruct Hq as [Hq| ->]; [by left|right].
        simpl. lia. }
    destruct (zero_or_nan_dec p) as [Hp|Hp].
    + rewrite (bind_run _ _ _ _ _
                 (F64_bernoulli_never _ s (zero_or_nan_div p remaining_p Hp))).
      by rewrite decide_True by done.
    + destruct (F64_bernoulli_run (p / remaining_p)%float s)
        as (hit & Hhit & [-> | ->]); rewrite (bind_run _ _ _ _ _ Hhit).
      * by rewrite decide_True by done.
      * rewrite decide_False by done. unfold ret.
        eexists _, _, 0%nat, p. split; [reflexivity|]. split.
        -- cbn [np_where_from]. rewrite decide_False by done.
           rewrite np_where_from_zeros. by rewrite Nat.add_0_r.
        -- split; [done|by left].
Qed.

(** When [multinomial] returns, the position it marks is the last one,
    or one whose probability is neither a zero nor a NaN. *)
Lemma F64_multinomial1_nonzero (pvals : list float) (s s' : RandomState)
    (counts : list nat) :
  F64.np_random_multinomial1 pvals s = (Ok counts, s') ->
  pvals = [] /\ counts = []
  \/ exists i p, np_where counts = [i] /\ pvals !! i = Some p
       /\ (~ zero_or_nan p \/ i = (length pvals - 1)%nat).
Proof.
  unfold F64.np_random_multinomial1.
  destruct (forallb _ _); [|done]. destruct (_ && _); [done|].
  destruct pvals as [|p pvals]; [intros [= <- _]; by left|].
  intros Hrun. right.
  destruct (F64_multinomial_trial_nonzero (p :: pvals) 1%float s 0)
    as (counts' & s1 & i & q & Hrun' & Hw & Hi & Hq); [done|].
  rewrite Hrun' in Hrun. injection Hrun as <- _. by exists i, q.
Qed.

Lemma omap_lookup_total {A B} (f : A -> option B) (l : list A) (i : nat) (y : B) :
  (forall x, x ∈ l -> is_Some (f x)) ->
  omap f l !! i = Some y ->
  exists x, l !! i = Some x /\ f x = Some y.
Proof.
  revert i. induction l as [|x l IH]; intros i Hall Hi; [done|].
  destruct (Hall x) as [y0 Hx]; [apply list_elem_of_here|].
  rewrite (omap_cons_Some f x y0 l Hx) in Hi.
  destruct i as [|i].
  - injection Hi as <-. by exists x.
  - apply (IH i); [|done]. intros x' Hx'. apply Hall. by apply list_elem_of_further.
Qed.

(** In float64, whatever the weights and whatever the random source
    does: when [sample_single] returns an index of an array, the weight at
    that index is not a zero, unless the index is the last one.  The last
    entry is the exception because [multinomial] hands it the mass the
    others leave, which overflow of the total and rounding can make
    positive. *)
Theorem sample_single_array_skips_zero {K : Type} `{EqDecision K}
    (key_le : K -> K -> bool) (a : list float) (s s' : RandomState) (i : nat) :
  F64.sample_single key_le (F64.PyArray a) s = (Ok (Index i), s') ->
  exists w, a !! i = Some w /\ (~ float_zero w \/ i = (length a - 1)%nat).
Proof.
  change (F64.sample_single key_le (F64.PyArray a))
    with (let* n := F64.np_random_multinomial1
                      (normalised key_le (F64.PyArray a)) in
          let* index := lift (getitem (np_where n) 0) in
          ret (@Index K index)).
  unfold bind at 1.
  destruct (F64.np_random_multinomial1 _ s) as [[counts|e] s1] eqn:Hrun; [|done].
  apply F64_multinomial1_nonzero in Hrun as [[_ ->]|(i0 & p & Hw & Hp & Hnz)]; [done|].
  rewrite Hw. change (getitem [i0] 0) with (Ok i0). rewrite bind_lift_Ok.
  intros [= <- _].
  unfold normalised in Hp, Hnz. rewrite list_lookup_fmap in Hp.
  rewrite length_map in Hnz.
  destruct (a !! i0) as [w|]; [|done]. injection Hp as <-.
  exists w. split; [done|]. destruct Hnz as [Hnz|Hlast]; [left|by right].
  intros Hz. by apply Hnz, zero_div_zero_or_nan.
Qed.

Lemma sample_single_array_skips_zero_witness :
  F64.sample_single Nat.leb (F64.PyArray [0; 3; 0; 1]%float) (fun _ => 0)
  = (Ok (Index 1), advance (fun _ => 0))
  /\ exists w, [0; 3; 0; 1]%float !! 1%nat = Some w
       /\ (~ float_zero w \/ 1%nat = (length [0; 3; 0; 1]%float - 1)%nat).
Proof.
  assert (Hrun : F64.sample_single Nat.leb (F64.PyArray [0; 3; 0; 1]%float)
                   (fun _ => 0)
                 = (Ok (Index 1), advance (fun _ => 0))) by reflexivity.
  split; [exact Hrun|].
  exact (sample_single_array_skips_zero Nat.leb [0; 3; 0; 1]%float
           (fun _ => 0) (advance (fun _ => 0)) 1 Hrun).
Defined.

(** In float64, whatever the weights and whatever the random source
    does: when [sample_single] returns a key of a [dict], the weight of
    that key is not a zero, unless the key is the last one in sorted
    order. *)
Theorem sample_single_dict_skips_zero {K : Type} `{EqDecision K}
    (key_le : K -> K -> bool) (d : dict K float) (s s' : RandomState) (k : K) :
  dict_wf d ->
  F64.sample_single key_le (F64.PyDict d) s = (Ok (Key k), s') ->
  exists w, dict_lookup d k = Some w
    /\ (~ float_zero w \/ last (sorted key_le (dict_keys d)) = Some k).
Proof.
  intros Hwf. rewrite F64_sample_single_dict. unfold bind at 1.
  destruct (F64.np_random_multinomial1 _ s) as [[counts|e] s1] eqn:Hrun; [|done].
  apply F64_multinomial1_nonzero in Hrun as [[_ ->]|(i & p & Hw & Hp & Hnz)]; [done|].
  rewrite Hw. change (getitem [i] 0) with (Ok i). rewrite bind_lift_Ok.
  rewrite normalised_dict_length in Hnz. unfold normalised in Hp.
  rewrite (F64_norm_dic_keys d Hwf) in *.
  set (sorted_keys := sorted key_le (dict_keys d)) in *.
  apply omap_lookup_total in Hp as (k0 & Hk0 & Hp).
  2:{ intros k1 Hk1. apply dict_lookup_is_Some.
      rewrite (F64_norm_dic_keys d Hwf). unfold sorted_keys in Hk1.
      by rewrite sorted_Permutation in Hk1. }
  unfold getitem. rewrite Hk0, bind_lift_Ok. intros [= <- _].
  assert (Hk : k0 ∈ dict_keys d).
  { apply list_elem_of_lookup_2 in Hk0. unfold sorted_keys in Hk0.
    by rewrite sorted_Permutation in Hk0. }
  apply dict_lookup_is_Some in Hk as [w Hkw].
  exists w. split; [done|]. destruct Hnz as [Hnz| ->]; [left|right].
  - intros Hz. apply Hnz.
    destruct (decide (float_zero (F64.np_sum (dict_values d)))) as [Ht|Ht].
    + rewrite (F64_norm_dic_zero d Ht), Hkw in Hp. injection Hp as <-.
      by apply float_zero_zero_or_nan.
    + rewrite (F64_norm_dic_lookup d k0 w Hwf Ht Hkw) in Hp. injection Hp as <-.
      by apply zero_div_zero_or_nan.
  - rewrite last_lookup.
    by replace (pred (length sorted_keys)) with (length sorted_keys - 1)%nat by lia.
Qed.

Lemma sample_single_dict_skips_zero_witness :
  dict_wf huge_counts
  /\ F64.sample_single String.leb (F64.PyDict huge_counts) (fun _ => 0)
     = (Ok (Key "b"%string), advance (fun _ => 0))
  /\ exists w, dict_lookup huge_counts "b"%string = Some w
       /\ (~ float_zero w
           \/ last (sorted String.leb (dict_keys huge_counts)) = Some "b"%string).
Proof.
  assert (Hwf : dict_wf huge_counts)
    by (unfold dict_wf; simpl; apply (bool_decide_unpack _); vm_compute; exact I).
  assert (Hrun : F64.sample_single String.leb (F64.PyDict huge_counts) (fun _ => 0)
                 = (Ok (Key "b"%string), advance (fun _ => 0))) by reflexivity.
  split; [exact Hwf|]. split; [exact Hrun|].
  exact (sample_single_dict_skips_zero String.leb huge_counts (fun _ => 0)
           (advance (fun _ => 0)) "b"%string Hwf Hrun).
Defined.
